(** * Patch decomposition and reconstruction ([archive/patch_proposals.py])

    A shallow embedding of [generate_patches_v2], [image_data_conserved],
    [reconstruction_conserves_data] and [p_por], together with the
    TensorFlow / NumPy array operations they call.

    Arrays are dense row-major buffers: a shape (list of dimensions) and the
    flat list of elements.  The element type is left generic (the dtype of
    the array); it comes with a zero (the value TensorFlow pads with).  The
    comparison of elements is the [==] of the dtype, a boolean function
    that need not be identity: for floats NaN is not equal to itself.  The
    two data-conservation checks are given twice, for arrays of one integer
    dtype and for arrays of any two dtypes.

    Python exceptions are values of [exn] carried by the [result] type. *)

From Stdlib Require Import String.
From Stdlib Require Import List Arith Lia Bool Permutation.
From Stdlib Require Import PrimFloat.
Import ListNotations.

Set Implicit Arguments.

(* ================================================================== *)
(** ** Exceptions *)

Inductive exn : Type :=
| ValueError               (* TensorFlow / NumPy shape failures *)
| AssertionError           (* a failed Python [assert] *)
| InvalidArgumentError     (* TensorFlow, when a graph is evaluated *)
| ShapeError               (* raised by the reconstructor *)
| UnsupportedMeasureError. (* raised by the reconstructor *)

Inductive result (T : Type) : Type :=
| Ok (v : T)
| Err (e : exn).

Arguments Ok {T} v.
Arguments Err {T} e.

Definition bind {T U : Type} (c : result T) (k : T -> result U) : result U :=
  match c with
  | Ok v => k v
  | Err e => Err e
  end.

Notation "x <- c ;; k" := (bind c (fun x => k))
  (at level 61, c at next level, right associativity).

(** [assert cond] of Python. *)
Definition assert (cond : bool) : result unit :=
  if cond then Ok tt else Err AssertionError.

(* ================================================================== *)
(** ** Row-major index arithmetic *)

Definition numel (s : list nat) : nat := fold_right Nat.mul 1 s.

(** Flat offset of a multi-index in an array of shape [s]. *)
Fixpoint ravel (s idx : list nat) : nat :=
  match s, idx with
  | _ :: s', i :: idx' => i * numel s' + ravel s' idx'
  | _, _ => 0
  end.

(** Multi-index of a flat offset. *)
Fixpoint unravel (s : list nat) (k : nat) : list nat :=
  match s with
  | [] => []
  | _ :: s' => (k / numel s') :: unravel s' (k mod numel s')
  end.

(** [in_bounds idx s]: every coordinate is below its dimension. *)
Definition in_bounds (idx s : list nat) : Prop := Forall2 lt idx s.

Fixpoint in_boundsb (idx s : list nat) : bool :=
  match idx, s with
  | [], [] => true
  | i :: idx', d :: s' => (i <? d) && in_boundsb idx' s'
  | _, _ => false
  end.

Fixpoint shape_eqb (s1 s2 : list nat) : bool :=
  match s1, s2 with
  | [], [] => true
  | a :: s1', b :: s2' => (a =? b) && shape_eqb s1' s2'
  | _, _ => false
  end.

(* ================================================================== *)
(** ** Tensors *)

Record Tensor (A : Type) : Type := mkTensor {
  shape : list nat;
  data : list A
}.

Arguments mkTensor {A} shape data.

(** A buffer is well formed when it holds one element per index. *)
Definition wf {A} (t : Tensor A) : Prop :=
  length (data t) = numel (shape t).

(** Generic list helpers used by the array operations. *)
Definition insert_at (n x : nat) (l : list nat) : list nat :=
  firstn n l ++ x :: skipn n l.

Definition remove_at (n : nat) (l : list nat) : list nat :=
  firstn n l ++ skipn (S n) l.

Fixpoint index_of (d : nat) (l : list nat) : nat :=
  match l with
  | [] => 0
  | x :: l' => if x =? d then 0 else S (index_of d l')
  end.

Definition is_perm (perm : list nat) (n : nat) : bool :=
  (length perm =? n) && forallb (fun d => existsb (Nat.eqb d) perm) (seq 0 n).

(** The shape argument of [tf.reshape]: [None] stands for [-1]. *)
Definition known_numel (dims : list (option nat)) : nat :=
  fold_right (fun d acc => match d with Some n => n * acc | None => acc end) 1 dims.

Definition count_auto (dims : list (option nat)) : nat :=
  length (filter (fun d => match d with None => true | Some _ => false end) dims).

Definition resolve_dims (n : nat) (dims : list (option nat)) : option (list nat) :=
  let k := known_numel dims in
  match count_auto dims with
  | 0 => if k =? n then Some (map (fun d => match d with Some x => x | None => 0 end) dims)
         else None
  | 1 => if (0 <? k) && (n mod k =? 0)
         then Some (map (fun d => match d with Some x => x | None => n / k end) dims)
         else None
  | _ => None
  end.

Section TensorOps.
Context {A : Type}.
Variable zero : A.

(** The array of shape [s] whose element at [idx] is [f idx]. *)
Definition tabulate (s : list nat) (f : list nat -> A) : Tensor A :=
  mkTensor s (map (fun k => f (unravel s k)) (seq 0 (numel s))).

(** Element access [t[idx]]. *)
Definition get (t : Tensor A) (idx : list nat) : A :=
  nth (ravel (shape t) idx) (data t) zero.

(** [tf.reshape(t, dims)]: same buffer, new shape; the element counts
    must agree. *)
Definition tf_reshape (t : Tensor A) (dims : list (option nat)) : result (Tensor A) :=
  match resolve_dims (numel (shape t)) dims with
  | Some s => Ok (mkTensor s (data t))
  | None => Err ValueError
  end.

(** [tf.pad(t, paddings)] with the constant zero. *)
Definition tf_pad (t : Tensor A) (paddings : list (nat * nat)) : result (Tensor A) :=
  if length paddings =? length (shape t) then
    Ok (tabulate
          (map (fun dp => fst (snd dp) + fst dp + snd (snd dp)) (combine (shape t) paddings))
          (fun idx =>
             let ip := combine idx paddings in
             let src := map (fun x => fst x - fst (snd x)) ip in
             if forallb (fun x => fst (snd x) <=? fst x) ip && in_boundsb src (shape t)
             then get t src else zero))
  else Err ValueError.

(** [tf.transpose(t, perm)]: dimension [k] of the result is dimension
    [perm[k]] of [t]. *)
Definition tf_transpose (t : Tensor A) (perm : list nat) : result (Tensor A) :=
  let s := shape t in
  if is_perm perm (length s) then
    Ok (tabulate (map (fun p => nth p s 0) perm)
          (fun idx => get t (map (fun d => nth (index_of d perm) idx 0) (seq 0 (length s)))))
  else Err ValueError.

(** [tf.stack(ts, axis)]: the tensors, all of one shape, along a new
    dimension at [axis].  A Python list of tensors given where a tensor is
    expected is packed the same way along axis 0. *)
Definition tf_stack (ts : list (Tensor A)) (axis : nat) : result (Tensor A) :=
  match ts with
  | [] => Err ValueError
  | t0 :: _ =>
      if forallb (fun t => shape_eqb (shape t) (shape t0)) ts
         && (axis <=? length (shape t0))
      then Ok (tabulate (insert_at axis (length ts) (shape t0))
                 (fun idx => get (nth (nth axis idx 0) ts t0) (remove_at axis idx)))
      else Err ValueError
  end.

(** [tf.split(t, num, axis)]: [num] equal pieces along [axis]. *)
Definition tf_split (t : Tensor A) (num axis : nat) : result (list (Tensor A)) :=
  let s := shape t in
  let d := nth axis s 0 in
  if (axis <? length s) && (0 <? num) && (d mod num =? 0) then
    let sz := d / num in
    Ok (map (fun k =>
               tabulate (firstn axis s ++ sz :: skipn (S axis) s)
                 (fun idx => get t (firstn axis idx
                                      ++ (nth axis idx 0 + k * sz) :: skipn (S axis) idx)))
          (seq 0 num))
  else Err ValueError.

(** [tf.unstack(t)]: the slices of [t] along axis 0. *)
Definition tf_unstack (t : Tensor A) : list (Tensor A) :=
  match shape t with
  | [] => []
  | n :: s => map (fun k => tabulate s (fun idx => get t (k :: idx))) (seq 0 n)
  end.

(** [tf.space_to_batch_nd(input, block_shape, paddings)], as TensorFlow
    documents it, for an input of shape [batch :: spatial ++ remaining]
    with [M = length block_shape] spatial dimensions:
    - zero-pad the spatial dimensions by [paddings];
    - reshape to [batch; d1/b1; b1; ...; dM/bM; bM] ++ remaining;
    - permute to [b1; ...; bM; batch; d1/b1; ...; dM/bM] ++ remaining;
    - reshape to [batch*b1*...*bM; d1/b1; ...; dM/bM] ++ remaining.
    Every block size must be positive and divide its padded dimension. *)
Definition space_to_batch_nd (input : Tensor A) (block_shape : list nat)
           (paddings : list (nat * nat)) : result (Tensor A) :=
  let m := length block_shape in
  let rank := length (shape input) in
  if (S m <=? rank) && (length paddings =? m) then
    padded <- tf_pad input ((0, 0) :: paddings ++ repeat (0, 0) (rank - S m)) ;;
    let batch := hd 0 (shape padded) in
    let spatial := combine (firstn m (tl (shape padded))) block_shape in
    let remaining := skipn m (tl (shape padded)) in
    if forallb (fun db => (0 <? snd db) && (fst db mod snd db =? 0)) spatial then
      let grid := map (fun db => fst db / snd db) spatial in
      reshaped <- tf_reshape padded
                    (map Some (batch :: flat_map (fun db => [fst db / snd db; snd db]) spatial
                                     ++ remaining)) ;;
      permuted <- tf_transpose reshaped
                    (map (fun i => 2 * i + 2) (seq 0 m) ++ 0
                       :: map (fun i => 2 * i + 1) (seq 0 m)
                       ++ seq (2 * m + 1) (length remaining)) ;;
      tf_reshape permuted (map Some ((batch * numel block_shape) :: grid ++ remaining))
    else Err ValueError
  else Err ValueError.

End TensorOps.

(* ================================================================== *)
(** ** Elementwise comparison with broadcasting *)

Definition broadcast_dim (a b : nat) : option nat :=
  if a =? b then Some a
  else if a =? 1 then Some b
  else if b =? 1 then Some a
  else None.

(** Broadcasting aligns shapes at their last dimension: this works on the
    reversed shapes. *)
Fixpoint broadcast_rev (r1 r2 : list nat) : option (list nat) :=
  match r1, r2 with
  | [], r => Some r
  | r, [] => Some r
  | a :: r1', b :: r2' =>
      match broadcast_dim a b, broadcast_rev r1' r2' with
      | Some d, Some r => Some (d :: r)
      | _, _ => None
      end
  end.

Definition broadcast_shapes (s1 s2 : list nat) : option (list nat) :=
  option_map (@rev nat) (broadcast_rev (rev s1) (rev s2)).

(** The index read in an operand of shape [s] for the index [idx] of the
    broadcast result: leading result dimensions are dropped and
    dimensions of size one are read at 0. *)
Definition broadcast_index (s idx : list nat) : list nat :=
  map (fun di => if fst di =? 1 then 0 else snd di)
      (combine s (skipn (length idx - length s) idx)).

Section Comparison.
Context {A : Type}.
Variable zero : A.
Variable A_eq_dec : forall x y : A, {x = y} + {x <> y}.

Definition elem_eqb (x y : A) : bool := if A_eq_dec x y then true else false.

Definition broadcast_to (t : Tensor A) (s : list nat) : Tensor A :=
  tabulate s (fun idx => get zero t (broadcast_index (shape t) idx)).

(** [np.equal(a, b)] *)
Definition np_equal (a b : Tensor A) : result (Tensor bool) :=
  match broadcast_shapes (shape a) (shape b) with
  | Some s =>
      Ok (tabulate s (fun idx =>
            elem_eqb (get zero a (broadcast_index (shape a) idx))
                     (get zero b (broadcast_index (shape b) idx))))
  | None => Err ValueError
  end.

(** [np.all(m)] *)
Definition np_all (m : Tensor bool) : bool := forallb (fun x => x) (data m).

(** [tf.math.equal(a, b)] *)
Definition tf_math_equal (a b : Tensor A) : result (Tensor bool) :=
  match broadcast_shapes (shape a) (shape b) with
  | Some s =>
      Ok (mkTensor s (map (fun xy => elem_eqb (fst xy) (snd xy))
                        (combine (data (broadcast_to a s)) (data (broadcast_to b s)))))
  | None => Err ValueError
  end.

(** [tf.reduce_all(m)]: a scalar boolean tensor. *)
Definition tf_reduce_all (m : Tensor bool) : Tensor bool :=
  mkTensor [] [fold_left andb (data m) true].

(** The truth value of a scalar boolean tensor. *)
Definition item (m : Tensor bool) : bool := get false m [].

Definition image_data_conserved (original reconstructed : Tensor A)
  : result (Tensor bool) :=
  m <- tf_math_equal original reconstructed ;;
  Ok (tf_reduce_all m).

Definition reconstruction_conserves_data (original reconstructed : Tensor A)
  : result bool :=
  m <- np_equal original reconstructed ;;
  Ok (np_all m).

End Comparison.

(** The definitions above are the two checks on arrays of one dtype whose
    [==] is identity (the integer dtypes).  The ones below are the checks
    as they stand: the two arrays may have different dtypes, and the [==]
    of a dtype need not be identity (for floats, NaN is not equal to
    itself).  NumPy promotes both operands to a common dtype and compares
    there; TensorFlow converts the second operand to the dtype of the
    first and compares there. *)
Section ComparisonDtypes.
Context {L R P : Type}.
Variable zero_l : L.
Variable zero_r : R.

(** NumPy: the promotion of either dtype to the common one, and its [==]. *)
Variable promote_l : L -> P.
Variable promote_r : R -> P.
Variable eqb_p : P -> P -> bool.

(** TensorFlow: the conversion to the dtype of the first operand, and its
    [==]. *)
Variable cast_r : R -> L.
Variable eqb_l : L -> L -> bool.

(** [np.equal(a, b)] *)
Definition np_equal_dtypes (a : Tensor L) (b : Tensor R) : result (Tensor bool) :=
  match broadcast_shapes (shape a) (shape b) with
  | Some s =>
      Ok (tabulate s (fun idx =>
            eqb_p (promote_l (get zero_l a (broadcast_index (shape a) idx)))
                  (promote_r (get zero_r b (broadcast_index (shape b) idx)))))
  | None => Err ValueError
  end.

(** The second operand as a tensor of the first one's dtype. *)
Definition tf_convert (b : Tensor R) : Tensor L :=
  mkTensor (shape b) (map cast_r (data b)).

(** [tf.math.equal(a, b)] *)
Definition tf_math_equal_dtypes (a : Tensor L) (b : Tensor R) : result (Tensor bool) :=
  match broadcast_shapes (shape a) (shape b) with
  | Some s =>
      Ok (mkTensor s (map (fun xy => eqb_l (fst xy) (snd xy))
                        (combine (data (broadcast_to zero_l a s))
                                 (data (broadcast_to zero_l (tf_convert b) s)))))
  | None => Err ValueError
  end.

Definition image_data_conserved_dtypes (original : Tensor L) (reconstructed : Tensor R)
  : result (Tensor bool) :=
  m <- tf_math_equal_dtypes original reconstructed ;;
  Ok (tf_reduce_all m).

Definition reconstruction_conserves_data_dtypes (original : Tensor L)
           (reconstructed : Tensor R) : result bool :=
  m <- np_equal_dtypes original reconstructed ;;
  Ok (np_all m).

End ComparisonDtypes.

(* ================================================================== *)
(** ** The patch splitter *)

Section Splitter.
Context {A : Type}.
Variable zero : A.

(** [tf.image.decode_image(image, channels=3, dtype=tf.float32)]: the
    codec is external; it is taken as a function from the encoded input to
    the decoded array. *)
Variable decode_image : Tensor A -> Tensor A.

(** The function builds a TensorFlow graph; the embedding gives the value
    of the tensor it returns.  An array passed in has a known shape and
    [tf.reshape] checks its element count at once.  A decoded image
    ([debug]) has no shape before the graph runs: [tf.reshape] gives it
    the requested shape, and the element count is checked only when the
    returned tensor is evaluated, after everything the call itself checks. *)
Definition generate_patches_v2 (image : Tensor A)
           (input_h input_w patch_h patch_w : nat) (pad debug : bool)
  : result (Tensor A) :=
  let decoded := if debug then decode_image image else image in
  image <- (if debug
            then Ok (mkTensor [input_h; input_w; 3] (data decoded))
            else tf_reshape decoded [Some input_h; Some input_w; Some 3]) ;;
  let padding := [(0, 0); (0, 0)] in
  let image_h := nth 0 (shape image) 0 in
  let image_w := nth 1 (shape image) 0 in
  let image_ch := nth 2 (shape image) 0 in
  let p_area := patch_h * patch_w in
  _ <- assert ((image_h =? image_w) && (patch_h =? patch_w)) ;;
  patches <- (if pad then
                batch <- tf_stack zero [image] 0 ;;
                space_to_batch_nd zero batch [patch_h; patch_w] padding
              else
                batch <- tf_stack zero [image] 0 ;;
                space_to_batch_nd zero batch [patch_h; patch_w] padding) ;;
  patches <- tf_split zero patches p_area 0 ;;
  patches <- tf_stack zero patches 3 ;;
  patches <- tf_reshape patches [None; Some patch_h; Some patch_w; Some image_ch] ;;
  if debug && negb (numel (shape decoded) =? input_h * input_w * 3)
  then Err InvalidArgumentError
  else Ok patches.

End Splitter.

(* ================================================================== *)
(** ** The measure-ordered reconstructor *)

(** The ten measures of the design document. *)
Inductive Measure : Type :=
| KL | MI | CE | L1 | L2 | MAX_NORM | JE | ENTROPY | SSIM | PSNR.

(** Measure identifiers are names; only ten of them are supported. *)
Definition lookup_measure (name : string) : option Measure :=
  if String.eqb name "KL" then Some KL
  else if String.eqb name "MI" then Some MI
  else if String.eqb name "CE" then Some CE
  else if String.eqb name "L1" then Some L1
  else if String.eqb name "L2" then Some L2
  else if String.eqb name "MAX_NORM" then Some MAX_NORM
  else if String.eqb name "JE" then Some JE
  else if String.eqb name "ENTROPY" then Some ENTROPY
  else if String.eqb name "SSIM" then Some SSIM
  else if String.eqb name "PSNR" then Some PSNR
  else None.

(** Ordering strategies: the row-major order of the sequence as given, or
    the order obtained by ranking the patches under the measure. *)
Inductive Ordering : Type := IdentityOrder | MeasureOrder.

(** Stable insertion sort: an element is put before the first element it
    does not exceed, so equal elements keep their order. *)
Fixpoint insert_by {T : Type} (le : T -> T -> bool) (x : T) (l : list T) : list T :=
  match l with
  | [] => [x]
  | y :: l' => if le x y then x :: l else y :: insert_by le x l'
  end.

Definition stable_sort {T : Type} (le : T -> T -> bool) (l : list T) : list T :=
  fold_right (insert_by le) [] l.

Section Reconstructor.
Context {A : Type}.
Variable zero : A.

(** The external measure evaluator: a scalar score per patch, and the
    comparison of two scores. *)
Variable Score : Type.
Variable score : Measure -> Tensor A -> Score.
Variable score_leb : Score -> Score -> bool.

Definition sort_by_score (m : Measure) (patches : list (Tensor A)) : list (Tensor A) :=
  stable_sort (fun a b => score_leb (score m a) (score m b)) patches.

(** The sequence that is placed: as given, or ranked under the measure. *)
Definition ordered_patches (m : Measure) (ordering : Ordering)
           (patches : list (Tensor A)) : list (Tensor A) :=
  match ordering with
  | IdentityOrder => patches
  | MeasureOrder => sort_by_score m patches
  end.

(** Placement: the patch number [i*(width/patch_w)+j] of the sequence
    fills the grid cell in row [i], column [j]. *)
Definition place (patches : list (Tensor A)) (height width patch_h patch_w : nat)
  : Tensor A :=
  tabulate [height; width; 3]
    (fun idx =>
       match idx with
       | [y; x; ch] =>
           get zero (nth ((y / patch_h) * (width / patch_w) + x / patch_w)
                         patches (mkTensor [] []))
               [y mod patch_h; x mod patch_w; ch]
       | _ => zero
       end).

(** Modelled from the spec: [reconstruct_from_patches] is imported from
    the module [curriculum_factory], which is not among the sources.  The
    definition follows section 4.2 of the design document: the measure
    identifier must be one of the ten measures ([UnsupportedMeasureError]);
    the patch size is inferred from the first patch, all patches must have
    that shape and their number must be [(height/patch_h)*(width/patch_w)]
    for exactly divisible dimensions ([ShapeError]); under a
    measure-driven ordering the sequence is first sorted, stably, by the
    score of each patch; the patches are then placed in row-major order
    into an image of shape [(height, width, 3)]. *)
Definition reconstruct_from_patches (patches : list (Tensor A))
           (height width : nat) (measure : string) (ordering : Ordering)
  : result (Tensor A) :=
  match lookup_measure measure with
  | None => Err UnsupportedMeasureError
  | Some m =>
      match patches with
      | [] => Err ShapeError
      | first :: _ =>
          match shape first with
          | [patch_h; patch_w; 3] =>
              if forallb (fun p => shape_eqb (shape p) (shape first)) patches
                 && (0 <? patch_h) && (0 <? patch_w)
                 && (height mod patch_h =? 0) && (width mod patch_w =? 0)
                 && (length patches =? (height / patch_h) * (width / patch_w))
              then
                let ordered := ordered_patches m ordering patches in
                Ok (place ordered height width patch_h patch_w)
              else Err ShapeError
          | _ => Err ShapeError
          end
      end
  end.




(** The pixel blocks found in the grid cells of an image, in row-major
    order of the cells. *)
Definition grid_cells (image : Tensor A) (patch_h patch_w : nat) : list (Tensor A) :=
  let height := nth 0 (shape image) 0 in
  let width := nth 1 (shape image) 0 in
  map (fun n =>
         tabulate [patch_h; patch_w; 3]
           (fun idx =>
              match idx with
              | [r; c; ch] =>
                  get zero image [(n / (width / patch_w)) * patch_h + r;
                                  (n mod (width / patch_w)) * patch_w + c; ch]
              | _ => zero
              end))
      (seq 0 ((height / patch_h) * (width / patch_w))).

Variable decode_image : Tensor A -> Tensor A.

(** [p_por]: split, then reconstruct.  The batch of patches is handed to
    the reconstructor as the sequence of its slices. *)
Definition p_por (image : Tensor A) (height width : nat) (measure : string)
           (ordering : Ordering) (patch_h patch_w : nat) : result (Tensor A) :=
  _ <- assert (patch_h =? patch_w) ;;
  patches <- generate_patches_v2 zero decode_image image height width
               patch_h patch_w false false ;;
  reconstruct_from_patches (tf_unstack zero patches) height width measure ordering.

End Reconstructor.

(* ================================================================== *)
(** ** Where a patch element comes from *)

(** The image index of the pixel found at an index of the batch of patches,
    for a grid of [g] by [g] patches of size [p]. *)
Definition source_index (g p : nat) (idx : list nat) : list nat :=
  [nth 0 idx 0 / g * p + nth 1 idx 0; nth 0 idx 0 mod g * p + nth 2 idx 0; nth 3 idx 0].

(* ================================================================== *)
(** ** The sliding-window extractor *)

(** Extent of a window of [ksize] taps spaced [rate] apart. *)
Definition effective_size (ksize rate : nat) : nat := (ksize - 1) * rate + 1.

(** Number of windows along one dimension and the padding put before it,
    as TensorFlow computes them: under ["VALID"] only windows inside the
    input, [(input - eff + stride) / stride] of them (a window that
    overshoots by a stride or more is refused); under ["SAME"]
    [ceil(input / stride)] windows, the input being zero-padded, half of
    the padding in front.  Sizes, strides and rates must be positive. *)
Definition windowed_output (input ksize stride rate : nat) (padding : string)
  : option (nat * nat) :=
  let eff := effective_size ksize rate in
  if (0 <? ksize) && (0 <? stride) && (0 <? rate) then
    if String.eqb padding "VALID" then
      if eff <=? input + stride then Some ((input + stride - eff) / stride, 0)
      else if eff <? input + 2 * stride then Some (0, 0)
      else None
    else if String.eqb padding "SAME" then
      let out := (input + stride - 1) / stride in
      Some (out, (out * stride + eff - (stride + input)) / 2)
    else None
  else None.

Section SlidingWindows.
Context {A : Type}.
Variable zero : A.

(** [tf.expand_dims(t, axis)] *)
Definition tf_expand_dims (t : Tensor A) (axis : nat) : result (Tensor A) :=
  if axis <=? length (shape t)
  then Ok (mkTensor (insert_at axis 1 (shape t)) (data t))
  else Err ValueError.

(** [tf.extract_image_patches(images, ksizes, strides, rates, padding)] on
    a batch of shape [(b, rows, cols, depth)]: the result has shape
    [(b, out_rows, out_cols, ksize_rows * ksize_cols * depth)]; the window
    at [(i, j)] starts at row [i * stride_rows], column [j * stride_cols]
    of the padded input and is flattened rows first, then columns, then
    depth. *)
Definition tf_extract_image_patches (images : Tensor A)
           (ksizes strides rates : list nat) (padding : string) : result (Tensor A) :=
  let s := shape images in
  if (length s =? 4)
     && shape_eqb [nth 0 ksizes 0; nth 3 ksizes 0] [1; 1] && (length ksizes =? 4)
     && shape_eqb [nth 0 strides 0; nth 3 strides 0] [1; 1] && (length strides =? 4)
     && shape_eqb [nth 0 rates 0; nth 3 rates 0] [1; 1] && (length rates =? 4)
  then
    let rows := nth 1 s 0 in
    let cols := nth 2 s 0 in
    let depth := nth 3 s 0 in
    let ksize_rows := nth 1 ksizes 0 in
    let ksize_cols := nth 2 ksizes 0 in
    match windowed_output rows ksize_rows (nth 1 strides 0) (nth 1 rates 0) padding,
          windowed_output cols ksize_cols (nth 2 strides 0) (nth 2 rates 0) padding with
    | Some (out_rows, pad_rows), Some (out_cols, pad_cols) =>
        Ok (tabulate [nth 0 s 0; out_rows; out_cols; ksize_rows * ksize_cols * depth]
              (fun idx =>
                 let d := nth 3 idx 0 in
                 let y := nth 1 idx 0 * nth 1 strides 0 + d / depth / ksize_cols * nth 1 rates 0 in
                 let x := nth 2 idx 0 * nth 2 strides 0 + d / depth mod ksize_cols * nth 2 rates 0 in
                 if (pad_rows <=? y) && (y - pad_rows <? rows)
                    && (pad_cols <=? x) && (x - pad_cols <? cols)
                 then get zero images [nth 0 idx 0; y - pad_rows; x - pad_cols; d mod depth]
                 else zero))
    | _, _ => Err ValueError
    end
  else Err ValueError.

Definition _patchify_tf (image_data : Tensor A)
           (ksize_rows ksize_cols strides_rows strides_cols : nat)
           (rates : list nat) (padding : string) : result (Tensor A) :=
  (* The size of sliding window *)
  let ksizes := [1; ksize_rows; ksize_cols; 1] in
  (* How far the centers of 2 consecutive patches are in the image *)
  let strides := [1; strides_rows; strides_cols; 1] in
  image <- tf_expand_dims image_data 0 ;;
  image_patches <- tf_extract_image_patches image ksizes strides rates padding ;;
  Ok image_patches.

End SlidingWindows.

(* ================================================================== *)
(** ** Sample data *)

(** A 4x4 image with pixel values 0..47, and a patch sequence of four
    1x1 patches. *)
Definition sample_image : Tensor nat := mkTensor [4; 4; 3] (seq 0 48).

Definition sample_patches : list (Tensor nat) :=
  [mkTensor [1; 1; 3] [7; 7; 7]; mkTensor [1; 1; 3] [3; 3; 3];
   mkTensor [1; 1; 3] [9; 9; 9]; mkTensor [1; 1; 3] [3; 3; 4]].

Definition sample_score (_ : Measure) (t : Tensor nat) : nat := hd 0 (data t).

(** The same 48 values as a flat vector, a 2x2 image of one colour, an
    image of one pixel of that colour, an image of one row and an image
    without rows. *)
Definition flat_image : Tensor nat := mkTensor [48] (seq 0 48).

Definition uniform_image : Tensor nat :=
  mkTensor [2; 2; 3] [1; 2; 3; 1; 2; 3; 1; 2; 3; 1; 2; 3].

Definition pixel_image : Tensor nat := mkTensor [1; 1; 3] [1; 2; 3].

Definition row_image : Tensor nat := mkTensor [1; 2; 3] [1; 2; 3; 4; 5; 6].

Definition empty_image : Tensor nat := mkTensor [0; 2; 3] [].

(** A 2x2 float image one of whose twelve values is NaN. *)
Definition nan_image : Tensor float :=
  mkTensor [2; 2; 3]
    [0.5; 0.25; 1; nan; 0; 0.75; 1; 1; 0; 0.125; 0.5; 0.5]%float.

Definition float_score (_ : Measure) (_ : Tensor float) : nat := 0.

Definition float_no_decoding (t : Tensor float) : Tensor float := t.

(** Unsigned 8-bit and signed 32-bit values as natural numbers: the
    conversion to [uint8] wraps around; [uint8] is promoted to [int32]
    unchanged. *)
Definition astype_uint8 (n : nat) : nat := n mod 256.

Definition uint8_to_int32 (n : nat) : nat := n.

Definition int32_to_int32 (n : nat) : nat := n.

Definition uint8_one : Tensor nat := mkTensor [1] [1].

Definition int32_257 : Tensor nat := mkTensor [1] [257].

Definition no_decoding (t : Tensor nat) : Tensor nat := t.

(* ================================================================== *)
(** ** Facts on index arithmetic *)

Lemma shape_eqb_eq s1 s2 : shape_eqb s1 s2 = true <-> s1 = s2.
Proof.
  revert s2; induction s1 as [|a s1 IH]; intros [|b s2]; simpl;
    try (split; congruence).
  rewrite andb_true_iff, Nat.eqb_eq, IH. split.
  - intros [-> ->]; reflexivity.
  - intros H; inversion H; auto.
Qed.

Lemma shape_eqb_refl s : shape_eqb s s = true.
Proof. apply shape_eqb_eq; reflexivity. Qed.

Lemma in_boundsb_spec idx s : in_boundsb idx s = true <-> in_bounds idx s.
Proof.
  revert s; induction idx as [|i idx IH]; intros [|d s]; simpl.
  - split; [constructor | reflexivity].
  - split; [discriminate | intros H; inversion H].
  - split; [discriminate | intros H; inversion H].
  - rewrite andb_true_iff, Nat.ltb_lt, IH. split.
    + intros [? ?]; constructor; assumption.
    + intros H; inversion H; subst; auto.
Qed.

Lemma ravel_lt s : forall idx, in_bounds idx s -> ravel s idx < numel s.
Proof.
  induction s as [|d s IH]; intros idx H; inversion H; subst; simpl.
  - lia.
  - specialize (IH _ H4). fold (numel s). nia.
Qed.

Lemma unravel_ravel s : forall idx, in_bounds idx s -> unravel s (ravel s idx) = idx.
Proof.
  induction s as [|d s IH]; intros idx H; inversion H; subst; simpl.
  - reflexivity.
  - pose proof (ravel_lt H4) as Hlt.
    rewrite Nat.div_add_l by lia.
    rewrite (Nat.div_small _ _ Hlt), Nat.add_0_r.
    rewrite Nat.add_comm, Nat.Div0.mod_add, (Nat.mod_small _ _ Hlt).
    rewrite IH by assumption. reflexivity.
Qed.

Lemma unravel_in_bounds s : forall k, k < numel s -> in_bounds (unravel s k) s.
Proof.
  induction s as [|d s IH]; intros k Hk; simpl in *.
  - constructor.
  - fold (numel s) in Hk.
    assert (0 < numel s) by nia.
    constructor.
    + apply Nat.Div0.div_lt_upper_bound. lia.
    + apply IH. apply Nat.mod_upper_bound. lia.
Qed.

Lemma ravel_unravel s : forall k, k < numel s -> ravel s (unravel s k) = k.
Proof.
  induction s as [|d s IH]; intros k Hk; simpl in *.
  - lia.
  - fold (numel s) in Hk.
    assert (0 < numel s) by nia.
    rewrite IH by (apply Nat.mod_upper_bound; lia).
    pose proof (Nat.div_mod_eq k (numel s)). lia.
Qed.

Lemma in_bounds_length idx s : in_bounds idx s -> length idx = length s.
Proof. induction 1; simpl; congruence. Qed.

Section TensorFacts.
Context {A : Type}.
Variable zero : A.

Lemma wf_tabulate s (f : list nat -> A) : wf (tabulate s f).
Proof. unfold wf, tabulate; simpl. now rewrite length_map, length_seq. Qed.

Lemma shape_tabulate s (f : list nat -> A) : shape (tabulate s f) = s.
Proof. reflexivity. Qed.

Lemma nth_tabulate s (f : list nat -> A) k :
  k < numel s -> nth k (data (tabulate s f)) zero = f (unravel s k).
Proof.
  intros Hk. unfold tabulate; simpl.
  rewrite (nth_indep _ zero (f (unravel s 0))) by (now rewrite length_map, length_seq).
  rewrite (map_nth (fun k => f (unravel s k)) (seq 0 (numel s)) 0 k).
  now rewrite seq_nth.
Qed.

Lemma get_tabulate s (f : list nat -> A) idx :
  in_bounds idx s -> get zero (tabulate s f) idx = f idx.
Proof.
  intros H. unfold get. rewrite shape_tabulate.
  rewrite nth_tabulate by (now apply ravel_lt).
  now rewrite unravel_ravel.
Qed.

(** Two well-formed arrays of one shape that agree at every index are equal. *)
Lemma tensor_ext (t u : Tensor A) :
  wf t -> wf u -> shape t = shape u ->
  (forall idx, in_bounds idx (shape t) -> get zero t idx = get zero u idx) ->
  t = u.
Proof.
  destruct t as [s d], u as [s' d']; unfold wf, get; simpl.
  intros Ht Hu <- Hext. f_equal.
  apply (nth_ext _ _ zero zero); [congruence|].
  intros k Hk. rewrite Ht in Hk.
  specialize (Hext _ (unravel_in_bounds _ Hk)).
  now rewrite ravel_unravel in Hext.
Qed.

End TensorFacts.

Lemma block_index_lt i r g p : i < g -> r < p -> i * p + r < g * p.
Proof. intros Hi Hr. nia. Qed.

Ltac bounds :=
  unfold in_bounds;
  repeat (apply Forall2_cons || apply Forall2_nil);
  try assumption; try lia; try (apply block_index_lt; assumption).

(* ================================================================== *)
(** ** Facts on the array operations *)

Section OpFacts.
Context {A : Type}.
Variable zero : A.

Lemma count_auto_known s : count_auto (map Some s) = 0.
Proof. unfold count_auto. induction s; simpl; auto. Qed.

Lemma known_numel_known s : known_numel (map Some s) = numel s.
Proof. unfold known_numel, numel. induction s; simpl; auto. Qed.

Lemma resolve_dims_known n s :
  numel s = n -> resolve_dims n (map Some s) = Some s.
Proof.
  intros Hn. unfold resolve_dims.
  rewrite count_auto_known, known_numel_known, Hn, Nat.eqb_refl. f_equal.
  rewrite map_map. apply map_id.
Qed.

Lemma tf_reshape_known (t : Tensor A) s :
  numel s = numel (shape t) ->
  tf_reshape t (map Some s) = Ok (mkTensor s (data t)).
Proof. intros H. unfold tf_reshape. now rewrite resolve_dims_known. Qed.

Lemma tf_reshape_mismatch (t : Tensor A) s :
  numel s <> numel (shape t) -> tf_reshape t (map Some s) = Err ValueError.
Proof.
  intros H. unfold tf_reshape, resolve_dims.
  rewrite count_auto_known, known_numel_known.
  destruct (Nat.eqb_spec (numel s) (numel (shape t))); [contradiction | reflexivity].
Qed.

Lemma tf_reshape_auto (t : Tensor A) n a b c :
  0 < a * b * c -> numel (shape t) = n * (a * b * c) ->
  tf_reshape t [None; Some a; Some b; Some c] = Ok (mkTensor [n; a; b; c] (data t)).
Proof.
  intros Hpos Hn. unfold tf_reshape, resolve_dims, count_auto, known_numel. simpl.
  replace (a * (b * (c * 1))) with (a * b * c) by ring.
  rewrite Hn, Nat.Div0.mod_mul, Nat.div_mul by lia.
  destruct (Nat.ltb_spec 0 (a * b * c)); [reflexivity | lia].
Qed.

Lemma get_mkTensor_data (t : Tensor A) s idx idx' :
  ravel s idx = ravel (shape t) idx' ->
  get zero (mkTensor s (data t)) idx = get zero t idx'.
Proof. unfold get; simpl. now intros ->. Qed.

Lemma tf_stack_single (t : Tensor A) :
  tf_stack zero [t] 0
  = Ok (tabulate (1 :: shape t) (fun idx => get zero (nth (nth 0 idx 0) [t] t) (remove_at 0 idx))).
Proof.
  unfold tf_stack. simpl. now rewrite shape_eqb_refl.
Qed.

Lemma tf_pad_none4 (t : Tensor A) b h w c :
  shape t = [b; h; w; c] ->
  exists t', tf_pad zero t [(0,0); (0,0); (0,0); (0,0)] = Ok t'
    /\ shape t' = [b; h; w; c] /\ wf t'
    /\ forall idx, in_bounds idx [b; h; w; c] -> get zero t' idx = get zero t idx.
Proof.
  intros Hs. unfold tf_pad. rewrite Hs. simpl.
  rewrite !Nat.add_0_r.
  eexists; split; [reflexivity|]. split; [reflexivity|]. split; [apply wf_tabulate|].
  intros idx Hb. rewrite get_tabulate by assumption.
  inversion Hb as [|n ? i1 ? Hn Hb1]; subst.
  inversion Hb1 as [|y ? i2 ? Hy Hb2]; subst.
  inversion Hb2 as [|x ? i3 ? Hx Hb3]; subst.
  inversion Hb3 as [|ch ? i4 ? Hch Hb4]; subst.
  inversion Hb4; subst. simpl. rewrite !Nat.sub_0_r.
  repeat match goal with |- context [?a <? ?b] => destruct (Nat.ltb_spec a b); [|lia] end.
  reflexivity.
Qed.

Lemma s2b_spec (input : Tensor A) b gh gw bh bw c :
  shape input = [b; gh * bh; gw * bw; c] -> 0 < bh -> 0 < bw ->
  exists out, space_to_batch_nd zero input [bh; bw] [(0,0); (0,0)] = Ok out
    /\ shape out = [b * (bh * bw); gh; gw; c] /\ wf out
    /\ forall n i j a bb ch, n < b -> i < gh -> j < gw -> a < bh -> bb < bw -> ch < c ->
         get zero out [(a * bw + bb) * b + n; i; j; ch]
         = get zero input [n; i * bh + a; j * bw + bb; ch].
Proof.
  intros Hs Hbh Hbw. unfold space_to_batch_nd. rewrite Hs.
  cbn [length Nat.leb Nat.eqb andb Nat.sub repeat app].
  destruct (@tf_pad_none4 input _ _ _ _ Hs) as (padded & -> & Hps & Hpw & Hpg).
  cbn [bind]. rewrite Hps.
  cbn [hd tl firstn skipn combine forallb fst snd flat_map app map seq Nat.mul Nat.add length].
  rewrite !Nat.Div0.mod_mul, !Nat.div_mul by lia.
  destruct (Nat.ltb_spec 0 bh); [|lia]. destruct (Nat.ltb_spec 0 bw); [|lia].
  cbn [Nat.eqb andb].
  change [Some b; Some gh; Some bh; Some gw; Some bw; Some c]
    with (map Some [b; gh; bh; gw; bw; c]).
  rewrite tf_reshape_known by (rewrite Hps; cbn [numel fold_right]; ring).
  cbn [bind]. unfold tf_transpose.
  cbn [shape length is_perm Nat.eqb forallb seq existsb orb andb map nth].
  cbn [bind].
  change [Some (b * numel [bh; bw]); Some gh; Some gw; Some c]
    with (map Some [b * numel [bh; bw]; gh; gw; c]).
  rewrite tf_reshape_known by (cbn [shape tabulate numel fold_right]; ring).
  eexists; split; [reflexivity|].
  cbn [shape numel fold_right]. rewrite Nat.mul_1_r.
  split; [reflexivity|]. split.
  { unfold wf. cbn [shape data tabulate]. rewrite length_map, length_seq.
    cbn [numel fold_right]. ring. }
  intros n i j a bb ch Hn Hi Hj Ha Hb Hc.
  rewrite (@get_mkTensor_data _ _ _ [a; bb; n; i; j; ch])
    by (cbn [shape tabulate ravel numel fold_right]; ring).
  rewrite get_tabulate by bounds.
  cbn [index_of Nat.eqb nth].
  rewrite (@get_mkTensor_data _ _ _ [n; i * bh + a; j * bw + bb; ch])
    by (rewrite Hps; cbn [ravel numel fold_right]; ring).
  apply Hpg. bounds.
Qed.

Lemma tf_split_axis0 (t : Tensor A) num sz s :
  shape t = (num * sz) :: s -> 0 < num ->
  tf_split zero t num 0
  = Ok (map (fun k => tabulate (sz :: s)
                        (fun idx => get zero t ((nth 0 idx 0 + k * sz) :: skipn 1 idx)))
            (seq 0 num)).
Proof.
  intros Hs Hnum. unfold tf_split. rewrite Hs.
  cbn [nth length firstn skipn app].
  rewrite (Nat.mul_comm num sz), Nat.Div0.mod_mul, Nat.div_mul by lia.
  destruct num; [lia | reflexivity].
Qed.

Lemma tf_stack_cons (t0 : Tensor A) ts axis :
  Forall (fun t => shape t = shape t0) ts -> axis <= length (shape t0) ->
  tf_stack zero (t0 :: ts) axis
  = Ok (tabulate (insert_at axis (S (length ts)) (shape t0))
          (fun idx => get zero (nth (nth axis idx 0) (t0 :: ts) t0) (remove_at axis idx))).
Proof.
  intros Hall Hax. unfold tf_stack.
  assert (Hf : forallb (fun t => shape_eqb (shape t) (shape t0)) (t0 :: ts) = true).
  { apply forallb_forall. intros t [<- | Hin]; [apply shape_eqb_refl|].
    apply shape_eqb_eq. rewrite Forall_forall in Hall. now apply Hall. }
  rewrite Hf. destruct (Nat.leb_spec axis (length (shape t0))); [reflexivity | lia].
Qed.

Lemma nth_map_seq {B} (f : nat -> B) n k d :
  k < n -> nth k (map f (seq 0 n)) d = f k.
Proof.
  intros Hk. rewrite (nth_indep _ d (f 0)) by (now rewrite length_map, length_seq).
  rewrite (map_nth f (seq 0 n) 0 k). now rewrite seq_nth.
Qed.

Lemma tf_stack_map_seq (F : nat -> Tensor A) n s axis :
  0 < n -> (forall k, shape (F k) = s) -> axis <= length s ->
  exists out, tf_stack zero (map F (seq 0 n)) axis = Ok out
    /\ shape out = insert_at axis n s /\ wf out
    /\ forall idx, in_bounds idx (insert_at axis n s) -> nth axis idx 0 < n ->
         get zero out idx = get zero (F (nth axis idx 0)) (remove_at axis idx).
Proof.
  intros Hn Hs Hax. destruct n as [|n]; [lia|].
  cbn [seq map]. rewrite tf_stack_cons.
  - rewrite length_map, length_seq, Hs.
    eexists; split; [reflexivity|]. split; [reflexivity|]. split; [apply wf_tabulate|].
    intros idx Hb Hk. rewrite get_tabulate by assumption.
    change (F 0 :: map F (seq 1 n)) with (map F (seq 0 (S n))).
    now rewrite nth_map_seq.
  - apply Forall_forall. intros t Hin. apply in_map_iff in Hin as (k & <- & _).
    now rewrite !Hs.
  - now rewrite Hs.
Qed.

Variable decode_image : Tensor A -> Tensor A.

Lemma gp_spec (image : Tensor A) g p pad :
  0 < p -> numel (shape image) = (g * p) * (g * p) * 3 ->
  exists out,
    generate_patches_v2 zero decode_image image (g * p) (g * p) p p pad false = Ok out
    /\ shape out = [g * g; p; p; 3] /\ wf out
    /\ forall i j r c ch, i < g -> j < g -> r < p -> c < p -> ch < 3 ->
         get zero out [i * g + j; r; c; ch]
         = get zero (mkTensor [g * p; g * p; 3] (data image)) [i * p + r; j * p + c; ch].
Proof.
  intros Hp Hn. unfold generate_patches_v2.
  change [Some (g * p); Some (g * p); Some 3] with (map Some [g * p; g * p; 3]).
  rewrite tf_reshape_known by (cbn [numel fold_right]; lia).
  cbn [bind shape nth]. rewrite !Nat.eqb_refl. cbn [andb assert bind].
  set (img := mkTensor [g * p; g * p; 3] (data image)).
  assert (Hb : (if pad
                then batch <- tf_stack zero [img] 0;; space_to_batch_nd zero batch [p; p] [(0, 0); (0, 0)]
                else batch <- tf_stack zero [img] 0;; space_to_batch_nd zero batch [p; p] [(0, 0); (0, 0)])
               = (batch <- tf_stack zero [img] 0;; space_to_batch_nd zero batch [p; p] [(0, 0); (0, 0)]))
    by (destruct pad; reflexivity).
  rewrite Hb; clear Hb.
  rewrite tf_stack_single. cbn [bind].
  match goal with |- context [space_to_batch_nd zero ?b _ _] => set (batch := b) end.
  destruct (@s2b_spec batch 1 g g p p 3 eq_refl Hp Hp) as (sb & -> & Hsb & Hwsb & Hgsb).
  cbn [bind].
  assert (Hpp : 0 < p * p) by nia.
  rewrite (@tf_split_axis0 sb (p * p) 1 [g; g; 3]) by (assumption || (rewrite Hsb; f_equal; lia)).
  cbn [bind].
  match goal with |- context [tf_stack zero (map ?f _) 3] => set (F := f) end.
  destruct (@tf_stack_map_seq F (p * p) [1; g; g; 3] 3 Hpp (fun _ => eq_refl))
    as (st & -> & Hst & Hwst & Hgst); [cbn; lia|].
  cbn [insert_at firstn skipn app] in Hst, Hgst.
  cbn [bind].
  rewrite (@tf_reshape_auto st (g * g) p p 3)
    by (try nia; rewrite Hst; cbn [numel fold_right]; ring).
  eexists; split; [reflexivity|]. split; [reflexivity|]. split.
  { unfold wf in *. cbn [shape data]. rewrite Hwst, Hst. cbn [numel fold_right]. ring. }
  intros i j r c ch Hi Hj Hr Hc Hch.
  rewrite (@get_mkTensor_data _ _ _ [0; i; j; r * p + c; ch])
    by (rewrite Hst; cbn [ravel numel fold_right]; ring).
  rewrite Hgst by (cbn [nth]; bounds).
  cbn [nth remove_at firstn skipn app]. subst F. cbv beta.
  rewrite get_tabulate by bounds.
  cbn [nth skipn].
  replace (0 + (r * p + c) * 1) with ((r * p + c) * 1 + 0) by lia.
  rewrite Hgsb by (assumption || lia).
  subst batch. rewrite get_tabulate by (cbn [shape img]; bounds).
  reflexivity.
Qed.
End OpFacts.


(* ================================================================== *)
(** ** The splitter: block decomposition, patch count, failures *)

Section SplitterFacts.
Context {A : Type}.
Variable zero : A.
Variable decode_image : Tensor A -> Tensor A.

Local Abbreviation split := (generate_patches_v2 zero decode_image).

Lemma tensor_eta (t : Tensor A) s : shape t = s -> mkTensor s (data t) = t.
Proof. destruct t; simpl; now intros ->. Qed.

Lemma exact_multiple h p : h mod p = 0 -> h = h / p * p.
Proof.
  intros H. apply Nat.Div0.div_exact in H. rewrite Nat.mul_comm in H. exact H.
Qed.

(** The splitter on a square image whose side is a multiple of the patch
    size: it returns, and what it returns. *)
Lemma split_square (image : Tensor A) h p pad :
  shape image = [h; h; 3] -> 0 < p -> h mod p = 0 ->
  exists patches,
    split image h h p p pad false = Ok patches
    /\ shape patches = [h / p * (h / p); p; p; 3] /\ wf patches
    /\ forall i j r c ch, i < h / p -> j < h / p -> r < p -> c < p -> ch < 3 ->
         get zero patches [i * (h / p) + j; r; c; ch]
         = get zero image [i * p + r; j * p + c; ch].
Proof.
  intros Hs Hp Hdiv. pose proof (exact_multiple _ _ Hdiv) as Hh.
  set (g := h / p) in *.
  destruct (@gp_spec _ zero decode_image image g p pad Hp) as (out & Hout & Hso & Hwo & Hgo).
  { rewrite Hs. cbn [numel fold_right]. rewrite <- Hh. ring. }
  rewrite <- Hh in Hout, Hgo. rewrite (tensor_eta image Hs) in Hgo.
  exists out. auto.
Qed.

(** C2.  For a square image of shape [(h, h, 3)] whose side is a multiple
    of the patch size [p], [generate_patches_v2] returns the block
    decomposition in row-major grid order: the patch number
    [i*(h/p)+j] holds at [(r, c, ch)] the pixel [image[i*p+r, j*p+c, ch]]. *)
Theorem generate_patches_v2_blocks (image : Tensor A) (h p : nat) (pad : bool) :
  shape image = [h; h; 3] -> 0 < p -> h mod p = 0 ->
  exists patches,
    split image h h p p pad false = Ok patches
    /\ forall i j r c ch, i < h / p -> j < h / p -> r < p -> c < p -> ch < 3 ->
         get zero patches [i * (h / p) + j; r; c; ch]
         = get zero image [i * p + r; j * p + c; ch].
Proof.
  intros Hs Hp Hdiv.
  destruct (split_square image pad Hs Hp Hdiv) as (out & Hout & _ & _ & Hg).
  exists out. split; assumption.
Qed.

(** The slices of a batch of patches. *)
Lemma tf_unstack_batch (t : Tensor A) n s :
  shape t = n :: s ->
  tf_unstack zero t = map (fun k => tabulate s (fun idx => get zero t (k :: idx))) (seq 0 n).
Proof. intros Hs. unfold tf_unstack. now rewrite Hs. Qed.


(** The concrete scenario of the design document: 224x224x3 split by 56x56. *)
Lemma generate_patches_v2_224_56 (image : Tensor A) (pad : bool) :
  shape image = [224; 224; 3] ->
  exists patches,
    split image 224 224 56 56 pad false = Ok patches
    /\ shape patches = [16; 56; 56; 3].
Proof.
  intros Hs.
  destruct (@split_square image 224 56 pad Hs) as (out & Hout & Hso & _ & _);
    [lia | reflexivity |].
  exists out. split; [assumption|]. exact Hso.
Qed.



(** C6.  The [pad] flag has no effect: both branches make the same call. *)
Theorem generate_patches_v2_pad_irrelevant (image : Tensor A)
        (input_h input_w patch_h patch_w : nat) (debug : bool) :
  split image input_h input_w patch_h patch_w true debug
  = split image input_h input_w patch_h patch_w false debug.
Proof. reflexivity. Qed.

End SplitterFacts.

(* ================================================================== *)
(** ** The data-conservation checks *)

Lemma broadcast_rev_same r : broadcast_rev r r = Some r.
Proof.
  induction r as [|a r IH]; simpl; [reflexivity|].
  unfold broadcast_dim. now rewrite Nat.eqb_refl, IH.
Qed.

Lemma broadcast_shapes_same s : broadcast_shapes s s = Some s.
Proof.
  unfold broadcast_shapes. rewrite broadcast_rev_same. simpl.
  now rewrite rev_involutive.
Qed.

Lemma broadcast_index_same idx s : in_bounds idx s -> broadcast_index s idx = idx.
Proof.
  intros H. unfold broadcast_index.
  rewrite (in_bounds_length H), Nat.sub_diag. cbn [skipn].
  induction H as [|i d idx s Hlt H IH]; simpl; [reflexivity|].
  rewrite IH. destruct (Nat.eqb_spec d 1); [|reflexivity].
  f_equal. lia.
Qed.

Lemma combine_map_same {X Y Z : Type} (f : X -> Y) (g : X -> Z) l :
  combine (map f l) (map g l) = map (fun x => (f x, g x)) l.
Proof. induction l; simpl; congruence. Qed.

Lemma fold_left_andb l acc : fold_left andb l acc = acc && forallb (fun x => x) l.
Proof.
  revert acc; induction l as [|x l IH]; intros acc; simpl.
  - now rewrite andb_true_r.
  - rewrite IH. now rewrite andb_assoc.
Qed.

Section ComparisonFacts.
Context {A : Type}.
Variable zero : A.
Variable A_eq_dec : forall x y : A, {x = y} + {x <> y}.

Local Abbreviation conserves := (reconstruction_conserves_data zero A_eq_dec).

Lemma elem_eqb_eq x y : elem_eqb A_eq_dec x y = true <-> x = y.
Proof. unfold elem_eqb. destruct (A_eq_dec x y); split; congruence. Qed.

(** TensorFlow's comparison computes the same array as NumPy's. *)
Lemma tf_math_equal_np_equal (a b : Tensor A) :
  tf_math_equal zero A_eq_dec a b = np_equal zero A_eq_dec a b.
Proof.
  unfold tf_math_equal, np_equal. destruct (broadcast_shapes _ _) as [s|]; [|reflexivity].
  f_equal. unfold broadcast_to, tabulate. cbn [data]. f_equal.
  rewrite combine_map_same, map_map. reflexivity.
Qed.

Lemma tf_reduce_all_np_all (m : Tensor bool) :
  tf_reduce_all m = mkTensor [] [np_all m].
Proof. unfold tf_reduce_all, np_all. now rewrite fold_left_andb. Qed.

Lemma np_all_tabulate s (f : list nat -> bool) :
  np_all (tabulate s f) = true <-> forall idx, in_bounds idx s -> f idx = true.
Proof.
  unfold np_all. rewrite forallb_forall. split.
  - intros H idx Hb. rewrite <- (get_tabulate false f Hb).
    apply H. unfold get. apply nth_In.
    rewrite wf_tabulate. now apply ravel_lt.
  - intros H x Hin. unfold tabulate in Hin; cbn [data] in Hin.
    apply in_map_iff in Hin as (k & <- & Hk). apply in_seq in Hk.
    apply H. apply unravel_in_bounds. lia.
Qed.

End ComparisonFacts.

Section ConservationClaims.
Context {A : Type}.
Variable zero : A.
Variable A_eq_dec : forall x y : A, {x = y} + {x <> y}.

Local Abbreviation conserves := (reconstruction_conserves_data zero A_eq_dec).
Local Abbreviation conserved := (image_data_conserved zero A_eq_dec).

Lemma image_data_conserved_np (a b : Tensor A) :
  conserved a b = (r <- conserves a b ;; Ok (mkTensor [] [r])).
Proof.
  unfold image_data_conserved, reconstruction_conserves_data.
  rewrite tf_math_equal_np_equal.
  destruct (np_equal zero A_eq_dec a b) as [m|e]; cbn [bind]; [|reflexivity].
  now rewrite tf_reduce_all_np_all.
Qed.

(** C10.  The check does not compare shapes: a reconstruction of shape
    [(1, w, 3)] is reported as conserving an original of shape [(h, w, 3)],
    [h <> 1], each of whose rows is that one row. *)
Theorem conserves_broadcast_row (row : Tensor A) (h w : nat) :
  shape row = [1; w; 3] -> h <> 1 ->
  let original := tabulate [h; w; 3] (fun idx => get zero row (0 :: tl idx)) in
  wf original
  /\ shape original <> shape row
  /\ conserves original row = Ok true.
Proof.
  intros Hs Hh original. split; [apply wf_tabulate|]. split.
  { rewrite Hs. cbn. congruence. }
  unfold reconstruction_conserves_data, np_equal. rewrite Hs.
  cbn [original shape tabulate].
  assert (Hbs : broadcast_shapes [h; w; 3] [1; w; 3] = Some [h; w; 3]).
  { unfold broadcast_shapes. cbn [rev app broadcast_rev].
    unfold broadcast_dim. rewrite (Nat.eqb_refl w).
    destruct (Nat.eqb_spec h 1) as [|_]; [contradiction|]. reflexivity. }
  rewrite Hbs. cbn [bind]. f_equal.
  apply np_all_tabulate. intros idx Hin.
  rewrite (broadcast_index_same Hin).
  fold original. unfold original at 1. rewrite (get_tabulate zero _ Hin).
  inversion Hin as [|y ? i1 ? Hy H1]; subst.
  inversion H1 as [|x ? i2 ? Hx H2]; subst.
  inversion H2 as [|c ? i3 ? Hc H3]; subst.
  inversion H3; subst.
  unfold broadcast_index. cbn [length Nat.sub skipn combine map fst snd Nat.eqb tl].
  destruct (Nat.eqb_spec w 1) as [Hw|_].
  - replace x with 0 by lia. now apply elem_eqb_eq.
  - now apply elem_eqb_eq.
Qed.

End ConservationClaims.

(* ================================================================== *)
(** ** The checks on arrays of one dtype *)

Section OneDtype.
Context {A : Type}.
Variable zero : A.
Variable eqb : A -> A -> bool.

Local Abbreviation conserves :=
  (reconstruction_conserves_data_dtypes zero zero (fun x : A => x) (fun x : A => x) eqb).
Local Abbreviation conserved :=
  (image_data_conserved_dtypes zero (fun x : A => x) eqb).

Lemma tf_convert_same (b : Tensor A) : tf_convert (fun x : A => x) b = b.
Proof. unfold tf_convert. rewrite map_id. now destruct b. Qed.

Lemma tf_math_equal_dtypes_np (a b : Tensor A) :
  tf_math_equal_dtypes zero (fun x : A => x) eqb a b
  = np_equal_dtypes zero zero (fun x : A => x) (fun x : A => x) eqb a b.
Proof.
  unfold tf_math_equal_dtypes, np_equal_dtypes. rewrite tf_convert_same.
  destruct (broadcast_shapes _ _) as [s|]; [|reflexivity].
  f_equal. unfold broadcast_to, tabulate. cbn [data]. f_equal.
  rewrite combine_map_same, map_map. reflexivity.
Qed.

Lemma image_data_conserved_dtypes_np (a b : Tensor A) :
  conserved a b = (r <- conserves a b ;; Ok (mkTensor [] [r])).
Proof.
  unfold image_data_conserved_dtypes, reconstruction_conserves_data_dtypes.
  rewrite tf_math_equal_dtypes_np.
  destruct (np_equal_dtypes _ _ _ _ _ a b) as [m|e]; cbn [bind]; [|reflexivity].
  now rewrite tf_reduce_all_np_all.
Qed.

Lemma get_in_data (t : Tensor A) idx :
  wf t -> in_bounds idx (shape t) -> In (get zero t idx) (data t).
Proof.
  intros Hwf Hb. unfold get. apply nth_In. rewrite Hwf. now apply ravel_lt.
Qed.

Lemma conserves_dtypes_same_shape (a b : Tensor A) :
  shape a = shape b ->
  conserves a b
  = Ok (np_all (tabulate (shape a)
                  (fun idx => eqb (get zero a (broadcast_index (shape a) idx))
                                  (get zero b (broadcast_index (shape a) idx))))).
Proof.
  intros Hs. unfold reconstruction_conserves_data_dtypes, np_equal_dtypes.
  rewrite <- Hs, broadcast_shapes_same. reflexivity.
Qed.

(** An array none of whose values is NaN is reported as conserved by
    itself. *)
Lemma conserves_itself (a : Tensor A) :
  wf a -> Forall (fun x => eqb x x = true) (data a) -> conserves a a = Ok true.
Proof.
  intros Hwf Hrefl. rewrite conserves_dtypes_same_shape by reflexivity. f_equal.
  apply np_all_tabulate. intros idx Hb. rewrite (broadcast_index_same Hb).
  rewrite Forall_forall in Hrefl. apply Hrefl. now apply get_in_data.
Qed.

(** C7, as amended.  For two images of the same shape and the same dtype,
    on whose pixel values the [==] of the dtype is identity (integers;
    floats without NaN and without zeros of opposite sign), both checks
    return, and they return true exactly when the two arrays are equal at
    every pixel. *)
Theorem conserves_iff_equal_same_shape (original reconstructed : Tensor A) :
  wf original -> wf reconstructed -> shape original = shape reconstructed ->
  (forall x y, In x (data original) -> In y (data reconstructed) ->
               (eqb x y = true <-> x = y)) ->
  exists r,
    conserves original reconstructed = Ok r
    /\ conserved original reconstructed = Ok (mkTensor [] [r])
    /\ (r = true <-> original = reconstructed).
Proof.
  intros Ha Hb Hs Heq.
  assert (Hc : exists r, conserves original reconstructed = Ok r
                 /\ (r = true <-> original = reconstructed)).
  { rewrite (conserves_dtypes_same_shape _ _ Hs).
    eexists; split; [reflexivity|]. rewrite np_all_tabulate. split.
    - intros H. apply (tensor_ext zero); try assumption.
      intros idx Hin. specialize (H idx Hin).
      rewrite (broadcast_index_same Hin) in H.
      apply Heq; [now apply get_in_data | | exact H].
      apply get_in_data; [assumption | now rewrite <- Hs].
    - intros E idx Hin. rewrite (broadcast_index_same Hin).
      apply Heq; [now apply get_in_data | | now rewrite E].
      apply get_in_data; [assumption | now rewrite <- Hs]. }
  destruct Hc as (r & Hr & Hiff). exists r. split; [assumption|]. split; [|assumption].
  rewrite image_data_conserved_dtypes_np, Hr. reflexivity.
Qed.

(** C9, as amended.  On two arrays of the same dtype the tensor-based
    check and the NumPy-based check agree: they fail together or return
    the same truth value, NaN or not. *)
Theorem conservation_checks_agree (original reconstructed : Tensor A) :
  (m <- conserved original reconstructed ;; Ok (item m))
  = conserves original reconstructed.
Proof.
  rewrite image_data_conserved_dtypes_np.
  destruct (conserves original reconstructed) as [r|e]; reflexivity.
Qed.

End OneDtype.

(** On one dtype whose [==] is identity the checks are the ones defined
    first. *)
Lemma conserves_dtypes_identity {A} (zero : A)
      (A_eq_dec : forall x y : A, {x = y} + {x <> y}) (a b : Tensor A) :
  reconstruction_conserves_data_dtypes zero zero (fun x : A => x) (fun x : A => x)
    (elem_eqb A_eq_dec) a b
  = reconstruction_conserves_data zero A_eq_dec a b.
Proof. reflexivity. Qed.

Lemma conserved_dtypes_identity {A} (zero : A)
      (A_eq_dec : forall x y : A, {x = y} + {x <> y}) (a b : Tensor A) :
  image_data_conserved_dtypes zero (fun x : A => x) (elem_eqb A_eq_dec) a b
  = image_data_conserved zero A_eq_dec a b.
Proof.
  unfold image_data_conserved_dtypes, image_data_conserved, tf_math_equal_dtypes,
    tf_math_equal.
  now rewrite tf_convert_same.
Qed.

(** C7, as stated, fails: a 2x2 image all of whose pixels are [(1, 2, 3)]
    and the 1x1 image with that pixel are different arrays, and both checks
    report the data as conserved. *)
Lemma conserves_iff_equal_counterexample :
  let original := mkTensor [2; 2; 3] [1; 2; 3; 1; 2; 3; 1; 2; 3; 1; 2; 3] in
  let reconstructed := mkTensor [1; 1; 3] [1; 2; 3] in
  wf original /\ wf reconstructed
  /\ reconstruction_conserves_data 0 Nat.eq_dec original reconstructed = Ok true
  /\ image_data_conserved 0 Nat.eq_dec original reconstructed = Ok (mkTensor [] [true])
  /\ original <> reconstructed.
Proof.
  cbv zeta. repeat split; try reflexivity. discriminate.
Qed.

Lemma conserves_broadcast_row_witness :
  let row := mkTensor [1; 2; 3] [1; 2; 3; 4; 5; 6] in
  let original := mkTensor [2; 2; 3] [1; 2; 3; 4; 5; 6; 1; 2; 3; 4; 5; 6] in
  wf original
  /\ shape original <> shape row
  /\ reconstruction_conserves_data 0 Nat.eq_dec original row = Ok true.
Proof.
  cbv zeta.
  apply (@conserves_broadcast_row nat 0 Nat.eq_dec
           (mkTensor [1; 2; 3] [1; 2; 3; 4; 5; 6]) 2 2); [reflexivity | lia].
Defined.

(* ================================================================== *)
(** ** The reconstructor: failures, placement, permutation *)

Lemma insert_by_perm {T} (le : T -> T -> bool) x l :
  Permutation (insert_by le x l) (x :: l).
Proof.
  induction l as [|y l IH]; simpl; [reflexivity|].
  destruct (le x y); [reflexivity|].
  rewrite IH. apply perm_swap.
Qed.

Lemma stable_sort_perm {T} (le : T -> T -> bool) l :
  Permutation (stable_sort le l) l.
Proof.
  induction l as [|x l IH]; simpl; [reflexivity|].
  rewrite insert_by_perm. now constructor.
Qed.

Lemma block_div i r p : r < p -> (i * p + r) / p = i.
Proof.
  intros Hr. rewrite Nat.div_add_l by lia. rewrite (Nat.div_small r p Hr). lia.
Qed.

Lemma block_mod i r p : r < p -> (i * p + r) mod p = r.
Proof.
  intros Hr. rewrite Nat.add_comm, Nat.Div0.mod_add. now apply Nat.mod_small.
Qed.

Lemma cell_row_lt n gh gw : n < gh * gw -> n / gw < gh.
Proof. intros Hn. apply Nat.Div0.div_lt_upper_bound. lia. Qed.

Lemma cell_col_lt n gh gw : n < gh * gw -> n mod gw < gw.
Proof. intros Hn. apply Nat.mod_upper_bound. nia. Qed.

Lemma cell_number n gw : n / gw * gw + n mod gw = n.
Proof. pose proof (Nat.div_mod_eq n gw). lia. Qed.

Section ReconstructorFacts.
Context {A : Type}.
Variable zero : A.
Variable Score : Type.
Variable score : Measure -> Tensor A -> Score.
Variable score_leb : Score -> Score -> bool.

Local Abbreviation reconstruct := (reconstruct_from_patches zero score score_leb).

Lemma ordered_patches_perm m ordering patches :
  Permutation (ordered_patches score score_leb m ordering patches) patches.
Proof.
  destruct ordering; simpl; [reflexivity|]. apply stable_sort_perm.
Qed.

(** On a supported measure and a consistent, complete patch sequence the
    reconstructor returns the placement of the ordered sequence. *)
Lemma reconstruct_ok patches height width measure m ordering ph pw :
  lookup_measure measure = Some m ->
  patches <> [] ->
  Forall (fun t => shape t = [ph; pw; 3]) patches ->
  0 < ph -> 0 < pw -> height mod ph = 0 -> width mod pw = 0 ->
  length patches = height / ph * (width / pw) ->
  reconstruct patches height width measure ordering
  = Ok (place zero (ordered_patches score score_leb m ordering patches)
          height width ph pw).
Proof.
  intros Hm Hne Hall Hph Hpw Hh Hw Hlen. unfold reconstruct_from_patches.
  rewrite Hm. destruct patches as [|first rest]; [congruence|].
  pose proof (Forall_inv Hall) as Hf. cbn beta in Hf. rewrite Hf.
  assert (Hc : forallb (fun p => shape_eqb (shape p) [ph; pw; 3]) (first :: rest) = true).
  { apply forallb_forall. intros t Hin. apply shape_eqb_eq.
    rewrite Forall_forall in Hall. now apply Hall. }
  rewrite Hc, Hh, Hw, Hlen, !Nat.eqb_refl.
  destruct (Nat.ltb_spec 0 ph); [|lia]. destruct (Nat.ltb_spec 0 pw); [|lia].
  reflexivity.
Qed.

(** Reading the grid cells of a placement gives back the placed sequence. *)
Lemma grid_cells_place (l : list (Tensor A)) gh gw ph pw :
  Forall (@wf A) l -> Forall (fun t => shape t = [ph; pw; 3]) l ->
  length l = gh * gw -> 0 < ph -> 0 < pw ->
  grid_cells zero (place zero l (gh * ph) (gw * pw) ph pw) ph pw = l.
Proof.
  intros Hwf Hsh Hlen Hph Hpw. unfold grid_cells.
  cbn [place shape tabulate nth]. rewrite !Nat.div_mul by lia.
  apply (nth_ext _ _ (mkTensor [] []) (mkTensor [] [])).
  { now rewrite length_map, length_seq. }
  intros n Hn. rewrite length_map, length_seq in Hn.
  rewrite nth_map_seq by assumption.
  assert (Hin : In (nth n l (mkTensor [] [])) l) by (apply nth_In; lia).
  rewrite Forall_forall in Hwf, Hsh.
  apply (tensor_ext zero); [apply wf_tabulate | now apply Hwf | now rewrite (Hsh _ Hin) |].
  cbn [shape tabulate]. intros idx Hb. rewrite (get_tabulate zero _ Hb).
  inversion Hb as [|r ? i1 ? Hr H1]; subst.
  inversion H1 as [|c ? i2 ? Hc H2]; subst.
  inversion H2 as [|ch ? i3 ? Hch H3]; subst.
  inversion H3; subst.
  pose proof (cell_row_lt _ _ Hn). pose proof (cell_col_lt _ _ Hn).
  unfold place. rewrite get_tabulate by bounds.
  rewrite !block_div, !block_mod, Nat.div_mul, cell_number by lia.
  reflexivity.
Qed.

Lemma reconstruct_cells patches height width measure m ordering ph pw :
  lookup_measure measure = Some m ->
  patches <> [] ->
  Forall (@wf A) patches ->
  Forall (fun t => shape t = [ph; pw; 3]) patches ->
  0 < ph -> 0 < pw -> height mod ph = 0 -> width mod pw = 0 ->
  length patches = height / ph * (width / pw) ->
  exists image,
    reconstruct patches height width measure ordering = Ok image
    /\ shape image = [height; width; 3]
    /\ grid_cells zero image ph pw = ordered_patches score score_leb m ordering patches.
Proof.
  intros Hm Hne Hwf Hsh Hph Hpw Hh Hw Hlen.
  rewrite (@reconstruct_ok patches height width measure m ordering ph pw
             Hm Hne Hsh Hph Hpw Hh Hw Hlen).
  eexists; split; [reflexivity|]. split; [reflexivity|].
  pose proof (ordered_patches_perm m ordering patches) as Hperm.
  apply Permutation_sym in Hperm.
  rewrite (exact_multiple _ _ Hh) at 1. rewrite (exact_multiple _ _ Hw) at 1.
  apply grid_cells_place; try assumption.
  - exact (Permutation_Forall Hperm Hwf).
  - exact (Permutation_Forall Hperm Hsh).
  - now rewrite <- (Permutation_length Hperm).
Qed.

(** C5.  Whatever the ordering strategy and the supported measure, the
    grid cells of the reconstructed image hold a permutation of the input
    patches: none is duplicated, none is dropped. *)
Theorem reconstruct_is_permutation (patches : list (Tensor A))
        (height width : nat) (measure : string) (m : Measure)
        (ordering : Ordering) (ph pw : nat) :
  lookup_measure measure = Some m ->
  patches <> [] ->
  Forall (@wf A) patches ->
  Forall (fun t => shape t = [ph; pw; 3]) patches ->
  0 < ph -> 0 < pw -> height mod ph = 0 -> width mod pw = 0 ->
  length patches = height / ph * (width / pw) ->
  exists image,
    reconstruct patches height width measure ordering = Ok image
    /\ shape image = [height; width; 3]
    /\ Permutation (grid_cells zero image ph pw) patches.
Proof.
  intros Hm Hne Hwf Hsh Hph Hpw Hh Hw Hlen.
  destruct (@reconstruct_cells patches height width measure m ordering ph pw
              Hm Hne Hwf Hsh Hph Hpw Hh Hw Hlen)
    as (image & Hr & Hs & Hc).
  exists image. split; [assumption|]. split; [assumption|].
  rewrite Hc. apply ordered_patches_perm.
Qed.





End ReconstructorFacts.

(* ================================================================== *)
(** ** Split, then reconstruct *)

Section PipelineFacts.
Context {A : Type}.
Variable zero : A.
Variable eqb : A -> A -> bool.
Variable Score : Type.
Variable score : Measure -> Tensor A -> Score.
Variable score_leb : Score -> Score -> bool.
Variable decode_image : Tensor A -> Tensor A.

Local Abbreviation split := (generate_patches_v2 zero decode_image).
Local Abbreviation reconstruct := (reconstruct_from_patches zero score score_leb).
Local Abbreviation pipeline := (p_por zero score score_leb decode_image).

(** The patch sequence the splitter hands over, on a valid input. *)
Lemma split_sequence (image : Tensor A) h p :
  shape image = [h; h; 3] -> 0 < h -> 0 < p -> h mod p = 0 ->
  exists patches,
    split image h h p p false false = Ok patches
    /\ tf_unstack zero patches <> []
    /\ Forall (@wf A) (tf_unstack zero patches)
    /\ Forall (fun t => shape t = [p; p; 3]) (tf_unstack zero patches)
    /\ length (tf_unstack zero patches) = h / p * (h / p)
    /\ forall n r c ch, n < h / p * (h / p) -> r < p -> c < p -> ch < 3 ->
         get zero (nth n (tf_unstack zero patches) (mkTensor [] [])) [r; c; ch]
         = get zero image [n / (h / p) * p + r; n mod (h / p) * p + c; ch].
Proof.
  intros Hs Hh Hp Hdiv.
  destruct (split_square zero decode_image image false Hs Hp Hdiv)
    as (out & Hout & Hso & Hwo & Hgo).
  exists out. split; [assumption|].
  rewrite (tf_unstack_batch zero _ Hso).
  set (g := h / p) in *.
  assert (Hg : 0 < g).
  { pose proof (exact_multiple _ _ Hdiv) as He. fold g in He.
    destruct g; [simpl in He; lia | lia]. }
  split.
  { destruct (g * g) eqn:Hgg; [nia | discriminate]. }
  split.
  { apply Forall_forall. intros t Hin. apply in_map_iff in Hin as (k & <- & _).
    apply wf_tabulate. }
  split.
  { apply Forall_forall. intros t Hin. apply in_map_iff in Hin as (k & <- & _).
    reflexivity. }
  split.
  { now rewrite length_map, length_seq. }
  intros n r c ch Hn Hr Hc Hch.
  rewrite nth_map_seq by assumption.
  rewrite get_tabulate by bounds.
  rewrite <- (cell_number n g) at 1.
  apply Hgo; try assumption.
  - now apply cell_row_lt.
  - now apply (cell_col_lt _ _ Hn).
Qed.

(** Under the identity ordering the pipeline gives the image back. *)
Lemma p_por_identity (image : Tensor A) h p measure m :
  wf image -> shape image = [h; h; 3] -> 0 < h -> 0 < p -> h mod p = 0 ->
  lookup_measure measure = Some m ->
  pipeline image h h measure IdentityOrder p p = Ok image.
Proof.
  intros Hwf Hs Hh Hp Hdiv Hm. unfold p_por.
  rewrite Nat.eqb_refl. cbn [assert bind].
  destruct (split_sequence image Hs Hh Hp Hdiv)
    as (out & -> & Hne & Hwfs & Hshs & Hlen & Hget).
  cbn [bind].
  rewrite (@reconstruct_ok _ zero _ score score_leb _ h h measure m IdentityOrder p p
             Hm Hne Hshs Hp Hp Hdiv Hdiv Hlen).
  f_equal. cbn [ordered_patches].
  apply (tensor_ext zero); [apply wf_tabulate | assumption | now rewrite Hs |].
  cbn [place shape tabulate]. intros idx Hb.
  unfold place. rewrite (get_tabulate zero _ Hb).
  inversion Hb as [|y ? i1 ? Hy H1]; subst.
  inversion H1 as [|x ? i2 ? Hx H2]; subst.
  inversion H2 as [|ch ? i3 ? Hch H3]; subst.
  inversion H3; subst.
  pose proof (exact_multiple _ _ Hdiv) as He.
  set (g := h / p) in *.
  assert (Hyg : y / p < g) by (apply Nat.Div0.div_lt_upper_bound; lia).
  assert (Hxg : x / p < g) by (apply Nat.Div0.div_lt_upper_bound; lia).
  rewrite Hget; try (apply Nat.mod_upper_bound; lia); try assumption.
  - rewrite block_div, block_mod by assumption.
    rewrite !cell_number. reflexivity.
  - apply block_index_lt; assumption.
Qed.

(** C1, as amended.  For a square image whose side is a multiple of the
    square patch size, splitting with [generate_patches_v2] and
    reconstructing under the identity ordering gives an image that is
    pixel-identical to the original; when no pixel of the image is NaN
    (each is equal to itself under the [==] of the dtype) the
    data-conservation check returns true on it. *)
Theorem split_reconstruct_lossless (image : Tensor A) (h p : nat)
        (measure : string) (m : Measure) :
  wf image -> shape image = [h; h; 3] -> 0 < h -> 0 < p -> h mod p = 0 ->
  lookup_measure measure = Some m ->
  Forall (fun x => eqb x x = true) (data image) ->
  exists reconstructed,
    pipeline image h h measure IdentityOrder p p = Ok reconstructed
    /\ reconstructed = image
    /\ reconstruction_conserves_data_dtypes zero zero (fun x : A => x) (fun x : A => x) eqb
         image reconstructed = Ok true.
Proof.
  intros Hwf Hs Hh Hp Hdiv Hm Hrefl.
  exists image. split; [now apply p_por_identity with (m := m)|].
  split; [reflexivity|]. now apply conserves_itself.
Qed.

(** Whatever the ordering, the pipeline returns an image whose grid cells
    are a permutation of the patches of the split. *)
Lemma p_por_permutation (image : Tensor A) h p measure m ordering :
  shape image = [h; h; 3] -> 0 < h -> 0 < p -> h mod p = 0 ->
  lookup_measure measure = Some m ->
  exists patches reconstructed,
    split image h h p p false false = Ok patches
    /\ pipeline image h h measure ordering p p = Ok reconstructed
    /\ shape reconstructed = [h; h; 3]
    /\ Permutation (grid_cells zero reconstructed p p) (tf_unstack zero patches).
Proof.
  intros Hs Hh Hp Hdiv Hm. unfold p_por.
  rewrite Nat.eqb_refl. cbn [assert bind].
  destruct (split_sequence image Hs Hh Hp Hdiv)
    as (out & Hout & Hne & Hwfs & Hshs & Hlen & _).
  rewrite Hout. cbn [bind].
  destruct (@reconstruct_cells _ zero _ score score_leb _ h h measure m ordering p p
              Hm Hne Hwfs Hshs Hp Hp Hdiv Hdiv Hlen) as (img & Hr & Hsi & Hc).
  exists out, img. split; [reflexivity|]. split; [assumption|]. split; [assumption|].
  rewrite Hc. apply ordered_patches_perm.
Qed.

End PipelineFacts.

(* ================================================================== *)
(** ** Concrete instances *)

(** TensorFlow's documented examples of [space_to_batch_nd]. *)
Example space_to_batch_nd_doc_example_3 :
  space_to_batch_nd 0 (mkTensor [1; 4; 4; 1] (seq 1 16)) [2; 2] [(0, 0); (0, 0)]
  = Ok (mkTensor [4; 2; 2; 1] [1; 3; 9; 11; 2; 4; 10; 12; 5; 7; 13; 15; 6; 8; 14; 16]).
Proof. reflexivity. Qed.

Example space_to_batch_nd_doc_example_4 :
  space_to_batch_nd 0 (mkTensor [2; 2; 4; 1] (seq 1 16)) [2; 2] [(0, 0); (2, 0)]
  = Ok (mkTensor [8; 1; 3; 1]
          [0; 1; 3; 0; 9; 11; 0; 2; 4; 0; 10; 12; 0; 5; 7; 0; 13; 15; 0; 6; 8; 0; 14; 16]).
Proof. reflexivity. Qed.

Example split_sample :
  generate_patches_v2 0 no_decoding sample_image 4 4 2 2 false false
  = Ok (mkTensor [4; 2; 2; 3]
          [0; 1; 2; 3; 4; 5; 12; 13; 14; 15; 16; 17;
           6; 7; 8; 9; 10; 11; 18; 19; 20; 21; 22; 23;
           24; 25; 26; 27; 28; 29; 36; 37; 38; 39; 40; 41;
           30; 31; 32; 33; 34; 35; 42; 43; 44; 45; 46; 47]).
Proof. reflexivity. Qed.

Example reconstruct_sample_by_measure :
  reconstruct_from_patches 0 sample_score Nat.leb sample_patches 2 2 "KL" MeasureOrder
  = Ok (mkTensor [2; 2; 3] [3; 3; 3; 3; 3; 4; 7; 7; 7; 9; 9; 9]).
Proof. reflexivity. Qed.

Lemma split_reconstruct_lossless_witness :
  (wf sample_image /\ shape sample_image = [4; 4; 3] /\ 0 < 4 /\ 0 < 2 /\ 4 mod 2 = 0
   /\ lookup_measure "SSIM" = Some SSIM
   /\ Forall (fun x => Nat.eqb x x = true) (data sample_image))
  /\ exists reconstructed,
       p_por 0 sample_score Nat.leb no_decoding sample_image 4 4 "SSIM" IdentityOrder 2 2
       = Ok reconstructed
       /\ reconstructed = sample_image
       /\ reconstruction_conserves_data_dtypes 0 0 (fun x : nat => x) (fun x : nat => x)
            Nat.eqb sample_image reconstructed = Ok true.
Proof.
  assert (Hr : Forall (fun x => Nat.eqb x x = true) (data sample_image)).
  { apply Forall_forall. intros x _. apply Nat.eqb_refl. }
  split.
  - repeat split; try lia. exact Hr.
  - apply (@split_reconstruct_lossless nat 0 Nat.eqb nat sample_score Nat.leb
             no_decoding sample_image 4 2 "SSIM" SSIM); try reflexivity; try lia.
    exact Hr.
Defined.

(** C1, as stated, fails: on a float image with a NaN pixel the
    reconstruction under the identity ordering is the image itself, and
    the data-conservation check returns false on it. *)
Lemma split_reconstruct_lossless_counterexample :
  wf nan_image /\ shape nan_image = [2; 2; 3] /\ 2 mod 1 = 0
  /\ p_por PrimFloat.zero float_score Nat.leb float_no_decoding nan_image 2 2 "SSIM"
       IdentityOrder 1 1 = Ok nan_image
  /\ reconstruction_conserves_data_dtypes PrimFloat.zero PrimFloat.zero
       (fun x : float => x) (fun x : float => x) PrimFloat.eqb nan_image nan_image
     = Ok false
  /\ image_data_conserved_dtypes PrimFloat.zero (fun x : float => x) PrimFloat.eqb
       nan_image nan_image
     = Ok (mkTensor [] [false]).
Proof. repeat split; reflexivity. Qed.

Lemma generate_patches_v2_blocks_witness :
  (shape sample_image = [4; 4; 3] /\ 0 < 2 /\ 4 mod 2 = 0)
  /\ exists patches,
       generate_patches_v2 0 no_decoding sample_image 4 4 2 2 false false = Ok patches
       /\ forall i j r c ch, i < 4 / 2 -> j < 4 / 2 -> r < 2 -> c < 2 -> ch < 3 ->
            get 0 patches [i * (4 / 2) + j; r; c; ch]
            = get 0 sample_image [i * 2 + r; j * 2 + c; ch].
Proof.
  split.
  - repeat split; lia.
  - apply (@generate_patches_v2_blocks nat 0 no_decoding sample_image 4 2 false);
      try reflexivity; lia.
Defined.




Lemma reconstruct_is_permutation_witness :
  (lookup_measure "KL" = Some KL /\ sample_patches <> []
   /\ Forall (@wf nat) sample_patches
   /\ Forall (fun t => shape t = [1; 1; 3]) sample_patches
   /\ 0 < 1 /\ 2 mod 1 = 0 /\ length sample_patches = 2 / 1 * (2 / 1))
  /\ exists image,
       reconstruct_from_patches 0 sample_score Nat.leb sample_patches 2 2 "KL" MeasureOrder
       = Ok image
       /\ shape image = [2; 2; 3]
       /\ Permutation (grid_cells 0 image 1 1) sample_patches.
Proof.
  assert (Hwf : Forall (@wf nat) sample_patches) by (repeat constructor).
  assert (Hsh : Forall (fun t : Tensor nat => shape t = [1; 1; 3]) sample_patches)
    by (repeat constructor).
  assert (Hne : sample_patches <> []) by discriminate.
  split.
  - repeat split; try assumption; lia.
  - apply (@reconstruct_is_permutation nat 0 nat sample_score Nat.leb sample_patches
             2 2 "KL" KL MeasureOrder 1 1); try assumption; try reflexivity; lia.
Defined.


Lemma conserves_iff_equal_same_shape_witness :
  (wf row_image /\ shape row_image = shape row_image
   /\ forall x y, In x (data row_image) -> In y (data row_image) ->
                  (Nat.eqb x y = true <-> x = y))
  /\ exists r,
       reconstruction_conserves_data_dtypes 0 0 (fun x : nat => x) (fun x : nat => x)
         Nat.eqb row_image row_image = Ok r
       /\ image_data_conserved_dtypes 0 (fun x : nat => x) Nat.eqb row_image row_image
          = Ok (mkTensor [] [r])
       /\ (r = true <-> row_image = row_image).
Proof.
  assert (He : forall x y, In x (data row_image) -> In y (data row_image) ->
                           (Nat.eqb x y = true <-> x = y))
    by (intros x y _ _; apply Nat.eqb_eq).
  split; [split; [reflexivity | split; [reflexivity | exact He]]|].
  apply (@conserves_iff_equal_same_shape nat 0 Nat.eqb row_image row_image);
    try reflexivity. exact He.
Defined.

(** C9, as stated, fails: on the [uint8] array [[1]] and the [int32] array
    [[257]] the tensor-based check returns true (257 converted to [uint8]
    is 1) and the NumPy-based check returns false (1 promoted to [int32]
    is not 257). *)
Lemma conservation_checks_agree_counterexample :
  image_data_conserved_dtypes 0 astype_uint8 Nat.eqb uint8_one int32_257
  = Ok (mkTensor [] [true])
  /\ reconstruction_conserves_data_dtypes 0 0 uint8_to_int32 int32_to_int32 Nat.eqb
       uint8_one int32_257
     = Ok false.
Proof. split; reflexivity. Qed.

(** With the two arrays swapped the tensor-based check returns false: it
    is not symmetric on mixed dtypes. *)
Example image_data_conserved_not_symmetric :
  image_data_conserved_dtypes 0 astype_uint8 Nat.eqb uint8_one int32_257
  = Ok (mkTensor [] [true])
  /\ image_data_conserved_dtypes 0 uint8_to_int32 Nat.eqb int32_257 uint8_one
     = Ok (mkTensor [] [false]).
Proof. split; reflexivity. Qed.

(* ================================================================== *)
(** ** The splitter: when it returns, how it fails, what it keeps *)

Lemma map_nth_seq {B} (d : list B) (dflt : B) :
  map (fun k => nth k d dflt) (seq 0 (length d)) = d.
Proof.
  apply (nth_ext _ _ dflt dflt).
  - now rewrite length_map, length_seq.
  - intros k Hk. rewrite length_map, length_seq in Hk.
    now rewrite nth_map_seq.
Qed.

(** A gather along an injective, in-range index map rearranges the buffer. *)
Lemma gather_permutation {B} (d : list B) (dflt : B) (sigma : nat -> nat) :
  (forall k, k < length d -> sigma k < length d) ->
  (forall k1 k2, k1 < length d -> k2 < length d -> sigma k1 = sigma k2 -> k1 = k2) ->
  Permutation (map (fun k => nth (sigma k) d dflt) (seq 0 (length d))) d.
Proof.
  intros Hrange Hinj.
  assert (Hp : Permutation (map sigma (seq 0 (length d))) (seq 0 (length d))).
  { apply NoDup_Permutation_bis.
    - apply NoDup_map_NoDup_ForallPairs; [|apply seq_NoDup].
      intros k1 k2 H1 H2. apply in_seq in H1, H2. apply Hinj; lia.
    - now rewrite length_map.
    - intros j Hj. apply in_map_iff in Hj as (k & <- & Hk).
      apply in_seq in Hk. apply in_seq. specialize (Hrange k). lia. }
  apply (Permutation_map (fun j => nth j d dflt)) in Hp.
  rewrite map_map, map_nth_seq in Hp. exact Hp.
Qed.

Section SplitterOutcome.
Context {A : Type}.
Variable zero : A.
Variable decode_image : Tensor A -> Tensor A.

Local Abbreviation split := (generate_patches_v2 zero decode_image).

(** A block size that is zero or does not divide its dimension is refused. *)
Lemma s2b_rejects (input : Tensor A) b rows cols c bh bw :
  shape input = [b; rows; cols; c] ->
  bh = 0 \/ rows mod bh <> 0 \/ bw = 0 \/ cols mod bw <> 0 ->
  space_to_batch_nd zero input [bh; bw] [(0, 0); (0, 0)] = Err ValueError.
Proof.
  intros Hs Hbad. unfold space_to_batch_nd. rewrite Hs.
  cbn [length Nat.leb Nat.eqb andb Nat.sub repeat app].
  destruct (@tf_pad_none4 _ zero input _ _ _ _ Hs) as (padded & -> & Hps & _ & _).
  cbn [bind]. rewrite Hps.
  cbn [hd tl firstn skipn combine forallb fst snd length].
  assert (Hc : (0 <? bh) && (rows mod bh =? 0) && ((0 <? bw) && (cols mod bw =? 0) && true)
               = false).
  { destruct (Nat.ltb_spec 0 bh), (Nat.eqb_spec (rows mod bh) 0),
      (Nat.ltb_spec 0 bw), (Nat.eqb_spec (cols mod bw) 0); try reflexivity.
    exfalso. destruct Hbad as [?|[?|[?|?]]]; lia. }
  rewrite Hc. reflexivity.
Qed.

(** The splitter on an input whose element count fits a square image whose
    side is a multiple of the patch size. *)
Lemma split_fits (image : Tensor A) h p pad :
  numel (shape image) = h * h * 3 -> 0 < p -> h mod p = 0 ->
  exists patches,
    split image h h p p pad false = Ok patches
    /\ shape patches = [h / p * (h / p); p; p; 3] /\ wf patches
    /\ forall i j r c ch, i < h / p -> j < h / p -> r < p -> c < p -> ch < 3 ->
         get zero patches [i * (h / p) + j; r; c; ch]
         = get zero (mkTensor [h; h; 3] (data image)) [i * p + r; j * p + c; ch].
Proof.
  intros Hn Hp Hdiv. pose proof (exact_multiple _ _ Hdiv) as Hh.
  set (g := h / p) in *.
  destruct (@gp_spec _ zero decode_image image g p pad Hp) as (out & Hout & Hso & Hwo & Hgo).
  { rewrite Hn, <- Hh. reflexivity. }
  rewrite <- Hh in Hout, Hgo. exists out. auto.
Qed.

(** How the splitter fails, in the order of its checks. *)
Lemma split_failures (image : Tensor A) h w ph pw pad :
  (numel (shape image) <> h * w * 3 ->
   split image h w ph pw pad false = Err ValueError)
  /\ (numel (shape image) = h * w * 3 -> h <> w \/ ph <> pw ->
      split image h w ph pw pad false = Err AssertionError)
  /\ (numel (shape image) = h * w * 3 -> h = w -> ph = pw ->
      ph = 0 \/ h mod ph <> 0 ->
      split image h w ph pw pad false = Err ValueError).
Proof.
  unfold generate_patches_v2.
  change [Some h; Some w; Some 3] with (map Some [h; w; 3]).
  split; [|split].
  - intros Hn. rewrite tf_reshape_mismatch; [reflexivity|].
    cbn [numel fold_right]. lia.
  - intros Hn Hns. rewrite tf_reshape_known by (cbn [numel fold_right]; lia).
    cbn [bind shape nth].
    assert (Hc : (h =? w) && (ph =? pw) = false).
    { apply andb_false_iff. rewrite !Nat.eqb_neq. exact Hns. }
    rewrite Hc. reflexivity.
  - intros Hn <- <- Hbad. rewrite tf_reshape_known by (cbn [numel fold_right]; lia).
    cbn [bind shape nth]. rewrite !Nat.eqb_refl. cbn [andb assert bind].
    rewrite tf_stack_single. cbn [bind].
    assert (Hs : forall T (x : result T), (if pad then x else x) = x)
      by (intros; destruct pad; reflexivity).
    rewrite Hs.
    match goal with
    | |- context [space_to_batch_nd zero ?batch _ _] =>
        rewrite (@s2b_rejects batch 1 h h 3 ph ph eq_refl) by tauto
    end.
    reflexivity.
Qed.

(** X1.  Given an array ([debug] unset) and non-negative sizes, the
    splitter returns exactly when the input has [input_h * input_w * 3]
    elements, the image and the patch are square, and the patch size is
    positive and divides the side. *)
Theorem generate_patches_v2_succeeds_iff (image : Tensor A)
        (input_h input_w patch_h patch_w : nat) (pad : bool) :
  (exists patches, split image input_h input_w patch_h patch_w pad false = Ok patches)
  <-> numel (shape image) = input_h * input_w * 3
      /\ input_h = input_w /\ patch_h = patch_w
      /\ 0 < patch_h /\ input_h mod patch_h = 0.
Proof.
  destruct (split_failures image input_h input_w patch_h patch_w pad) as (F1 & F2 & F3).
  split.
  - intros (out & Hout).
    destruct (Nat.eq_dec (numel (shape image)) (input_h * input_w * 3)) as [Hn|Hn];
      [|rewrite (F1 Hn) in Hout; discriminate].
    destruct (Nat.eq_dec input_h input_w) as [Hh|Hh];
      [|rewrite (F2 Hn (or_introl Hh)) in Hout; discriminate].
    destruct (Nat.eq_dec patch_h patch_w) as [Hp|Hp];
      [|rewrite (F2 Hn (or_intror Hp)) in Hout; discriminate].
    destruct (Nat.eq_dec patch_h 0) as [H0|H0];
      [rewrite (F3 Hn Hh Hp (or_introl H0)) in Hout; discriminate|].
    destruct (Nat.eq_dec (input_h mod patch_h) 0) as [Hm|Hm];
      [|rewrite (F3 Hn Hh Hp (or_intror Hm)) in Hout; discriminate].
    repeat split; try assumption. lia.
  - intros (Hn & <- & <- & Hp & Hm).
    destruct (@split_fits image input_h patch_h pad Hn Hp Hm) as (out & Hout & _).
    exists out. exact Hout.
Qed.

(** X2.  Given an array ([debug] unset), the failures of the splitter
    follow the order of its checks: a wrong element count is a
    [ValueError] of the reshape, whatever the other arguments; with a
    fitting count a non-square image or patch is an [AssertionError]; a
    square request whose patch size is zero or does not divide the side is
    a [ValueError], with and without [pad]. *)
Theorem generate_patches_v2_failure_kinds (image : Tensor A)
        (input_h input_w patch_h patch_w : nat) (pad : bool) :
  (numel (shape image) <> input_h * input_w * 3 ->
   split image input_h input_w patch_h patch_w pad false = Err ValueError)
  /\ (numel (shape image) = input_h * input_w * 3 ->
      input_h <> input_w \/ patch_h <> patch_w ->
      split image input_h input_w patch_h patch_w pad false = Err AssertionError)
  /\ (numel (shape image) = input_h * input_w * 3 ->
      input_h = input_w -> patch_h = patch_w ->
      patch_h = 0 \/ input_h mod patch_h <> 0 ->
      split image input_h input_w patch_h patch_w pad false = Err ValueError).
Proof. apply split_failures. Qed.

(** X3.  The splitter never looks at the layout of its input: two arrays with
    the same buffer and the same number of elements are split alike. *)
Theorem generate_patches_v2_ignores_layout (image image' : Tensor A)
        (input_h input_w patch_h patch_w : nat) (pad : bool) :
  data image = data image' -> numel (shape image) = numel (shape image') ->
  split image input_h input_w patch_h patch_w pad false
  = split image' input_h input_w patch_h patch_w pad false.
Proof.
  intros Hd Hn. unfold generate_patches_v2, tf_reshape at 1 3.
  rewrite Hd, Hn. reflexivity.
Qed.

End SplitterOutcome.

Section SplitterInvariants.
Context {A : Type}.
Variable zero : A.
Variable decode_image : Tensor A -> Tensor A.

Local Abbreviation split := (generate_patches_v2 zero decode_image).

Lemma source_index_in_bounds g p idx :
  in_bounds idx [g * g; p; p; 3] -> in_bounds (source_index g p idx) [g * p; g * p; 3].
Proof.
  intros Hb.
  inversion Hb as [|n ? i1 ? Hn H1]; subst.
  inversion H1 as [|r ? i2 ? Hr H2]; subst.
  inversion H2 as [|c ? i3 ? Hc H3]; subst.
  inversion H3 as [|ch ? i4 ? Hch H4]; subst.
  inversion H4; subst.
  unfold source_index. cbn [nth].
  pose proof (cell_row_lt _ _ Hn). pose proof (cell_col_lt _ _ Hn).
  bounds.
Qed.

Lemma source_index_injective g p idx idx' :
  in_bounds idx [g * g; p; p; 3] -> in_bounds idx' [g * g; p; p; 3] ->
  source_index g p idx = source_index g p idx' -> idx = idx'.
Proof.
  intros Hb Hb' Heq.
  inversion Hb as [|n ? i1 ? Hn H1]; subst.
  inversion H1 as [|r ? i2 ? Hr H2]; subst.
  inversion H2 as [|c ? i3 ? Hc H3]; subst.
  inversion H3 as [|ch ? i4 ? Hch H4]; subst.
  inversion H4; subst.
  inversion Hb' as [|n' ? j1 ? Hn' H1']; subst.
  inversion H1' as [|r' ? j2 ? Hr' H2']; subst.
  inversion H2' as [|c' ? j3 ? Hc' H3']; subst.
  inversion H3' as [|ch' ? j4 ? Hch' H4']; subst.
  inversion H4'; subst.
  unfold source_index in Heq. cbn [nth] in Heq.
  injection Heq as Hy Hx Hc0.
  assert (Hq : n / g = n' / g).
  { rewrite <- (block_div (n / g) Hr), <- (block_div (n' / g) Hr'). now rewrite Hy. }
  assert (Hrr : r = r').
  { rewrite <- (block_mod (n / g) Hr), <- (block_mod (n' / g) Hr'). now rewrite Hy. }
  assert (Hm : n mod g = n' mod g).
  { rewrite <- (block_div (n mod g) Hc), <- (block_div (n' mod g) Hc'). now rewrite Hx. }
  assert (Hcc : c = c').
  { rewrite <- (block_mod (n mod g) Hc), <- (block_mod (n' mod g) Hc'). now rewrite Hx. }
  assert (Hnn : n = n').
  { rewrite <- (cell_number n g), <- (cell_number n' g). now rewrite Hq, Hm. }
  now subst.
Qed.

Lemma split_reads (image : Tensor A) h p pad :
  numel (shape image) = h * h * 3 -> 0 < p -> h mod p = 0 ->
  exists patches,
    split image h h p p pad false = Ok patches
    /\ shape patches = [h / p * (h / p); p; p; 3] /\ wf patches
    /\ forall idx, in_bounds idx [h / p * (h / p); p; p; 3] ->
         get zero patches idx
         = get zero (mkTensor [h; h; 3] (data image)) (source_index (h / p) p idx).
Proof.
  intros Hn Hp Hdiv.
  destruct (@split_fits _ zero decode_image image h p pad Hn Hp Hdiv)
    as (out & Hout & Hso & Hwo & Hgo).
  exists out. split; [assumption|]. split; [assumption|]. split; [assumption|].
  intros idx Hb.
  inversion Hb as [|n ? i1 ? Hi H1]; subst.
  inversion H1 as [|r ? i2 ? Hr H2]; subst.
  inversion H2 as [|c ? i3 ? Hc H3]; subst.
  inversion H3 as [|ch ? i4 ? Hch H4]; subst.
  inversion H4; subst.
  unfold source_index. cbn [nth].
  rewrite <- (cell_number n (h / p)) at 1.
  apply Hgo; try assumption.
  - now apply cell_row_lt.
  - now apply (cell_col_lt _ _ Hi).
Qed.

(** X4.  The split loses no pixel and repeats none: the buffer of the batch of
    patches is a rearrangement of the buffer of the image. *)
Theorem generate_patches_v2_permutes_pixels (image : Tensor A) (h p : nat) (pad : bool) :
  wf image -> numel (shape image) = h * h * 3 -> 0 < p -> h mod p = 0 ->
  exists patches,
    split image h h p p pad false = Ok patches
    /\ Permutation (data patches) (data image).
Proof.
  intros Hwf Hn Hp Hdiv.
  destruct (@split_reads image h p pad Hn Hp Hdiv) as (out & Hout & Hso & Hwo & Hget).
  exists out. split; [assumption|].
  pose proof (exact_multiple _ _ Hdiv) as Hh.
  set (g := h / p) in *.
  set (so := [g * g; p; p; 3]) in *. set (si := [h; h; 3]).
  set (d := data image).
  assert (Hlen : length d = numel si).
  { unfold d, si. rewrite Hwf, Hn. cbn [numel fold_right]. ring. }
  assert (Hnum : numel so = length d).
  { rewrite Hlen. unfold so, si. cbn [numel fold_right]. rewrite Hh. ring. }
  set (sigma := fun k => ravel si (source_index g p (unravel so k))).
  assert (Hsb : forall k, k < length d ->
                  in_bounds (source_index g p (unravel so k)) si).
  { intros k Hk. unfold si. rewrite Hh.
    apply source_index_in_bounds. apply (unravel_in_bounds so). now rewrite Hnum. }
  assert (Hdata : data out = map (fun k => nth (sigma k) d zero) (seq 0 (length d))).
  { apply (nth_ext _ _ zero zero).
    - rewrite length_map, length_seq. unfold wf in Hwo. now rewrite Hwo, Hso.
    - intros k Hk. unfold wf in Hwo. rewrite Hwo, Hso in Hk. fold so in Hk.
      rewrite nth_map_seq by (now rewrite <- Hnum).
      pose proof (Hget (unravel so k) (unravel_in_bounds _ Hk)) as Hg.
      unfold get in Hg. rewrite Hso in Hg. fold so in Hg.
      rewrite ravel_unravel in Hg by assumption. exact Hg. }
  rewrite Hdata. apply gather_permutation.
  - intros k Hk. rewrite Hlen. apply ravel_lt. now apply Hsb.
  - intros k1 k2 H1 H2 Heq. unfold sigma in Heq.
    apply (f_equal (unravel si)) in Heq.
    rewrite !unravel_ravel in Heq by (now apply Hsb).
    apply source_index_injective in Heq;
      try (apply (unravel_in_bounds so); now rewrite Hnum).
    rewrite <- (@ravel_unravel so k1), <- (@ravel_unravel so k2) by (now rewrite Hnum).
    now rewrite Heq.
Qed.

(** X5.  A patch as large as the image: the one patch is the image itself. *)
Theorem generate_patches_v2_whole_image (image : Tensor A) (h : nat) (pad : bool) :
  wf image -> shape image = [h; h; 3] -> 0 < h ->
  split image h h h h pad false = Ok (mkTensor [1; h; h; 3] (data image)).
Proof.
  intros Hwf Hs Hh.
  destruct (@split_square _ zero decode_image image h h pad Hs Hh (Nat.Div0.mod_same h))
    as (out & Hout & Hso & Hwo & Hget).
  rewrite Hout. f_equal.
  rewrite Nat.div_same in Hso, Hget by lia. cbn [Nat.mul Nat.add] in Hso.
  apply (tensor_ext zero); try assumption.
  - unfold wf in *. cbn [shape data]. rewrite Hwf, Hs. cbn [numel fold_right]. lia.
  - rewrite Hso. intros idx Hb.
    inversion Hb as [|n ? i1 ? Hn H1]; subst.
    inversion H1 as [|r ? i2 ? Hr H2]; subst.
    inversion H2 as [|c ? i3 ? Hc H3]; subst.
    inversion H3 as [|ch ? i4 ? Hch H4]; subst.
    inversion H4; subst.
    assert (n = 0) by lia. subst n.
    rewrite (@get_mkTensor_data _ zero image _ _ [r; c; ch])
      by (rewrite Hs; cbn [ravel numel fold_right]; ring).
    specialize (Hget 0 0 r c ch). cbn [Nat.mul Nat.add] in Hget.
    apply Hget; lia.
Qed.

(** X6.  Patches of one pixel: the pixels in their row-major order. *)
Theorem generate_patches_v2_single_pixels (image : Tensor A) (h : nat) (pad : bool) :
  wf image -> shape image = [h; h; 3] ->
  split image h h 1 1 pad false = Ok (mkTensor [h * h; 1; 1; 3] (data image)).
Proof.
  intros Hwf Hs.
  destruct (@split_square _ zero decode_image image h 1 pad Hs Nat.lt_0_1 (Nat.mod_1_r h))
    as (out & Hout & Hso & Hwo & Hget).
  rewrite Hout. f_equal.
  rewrite Nat.div_1_r in Hso, Hget.
  apply (tensor_ext zero); try assumption.
  - unfold wf in *. cbn [shape data]. rewrite Hwf, Hs. cbn [numel fold_right]. lia.
  - rewrite Hso. intros idx Hb.
    inversion Hb as [|n ? i1 ? Hn H1]; subst.
    inversion H1 as [|r ? i2 ? Hr H2]; subst.
    inversion H2 as [|c ? i3 ? Hc H3]; subst.
    inversion H3 as [|ch ? i4 ? Hch H4]; subst.
    inversion H4; subst.
    assert (r = 0) by lia. assert (c = 0) by lia. subst r c.
    assert (Hh : 0 < h) by (destruct h; [simpl in Hn; lia | lia]).
    rewrite (@get_mkTensor_data _ zero image _ _ [n / h; n mod h; ch]).
    + rewrite <- (cell_number n h) at 1.
      rewrite (Hget (n / h) (n mod h) 0 0 ch); try lia.
      * now rewrite !Nat.mul_1_r, !Nat.add_0_r.
      * now apply cell_row_lt.
      * now apply (cell_col_lt _ _ Hn).
    + rewrite Hs. cbn [ravel numel fold_right].
      rewrite <- (cell_number n h) at 1. ring.
Qed.

End SplitterInvariants.

(* ================================================================== *)
(** ** The data-conservation checks under broadcasting *)

Lemma broadcast_dim_comm a b : broadcast_dim a b = broadcast_dim b a.
Proof.
  unfold broadcast_dim.
  destruct (Nat.eqb_spec a b), (Nat.eqb_spec b a), (Nat.eqb_spec a 1), (Nat.eqb_spec b 1);
    subst; try reflexivity; congruence.
Qed.

Lemma broadcast_dim_none a b :
  broadcast_dim a b = None <-> a <> b /\ a <> 1 /\ b <> 1.
Proof.
  unfold broadcast_dim.
  destruct (Nat.eqb_spec a b), (Nat.eqb_spec a 1), (Nat.eqb_spec b 1);
    split; try discriminate; try tauto; intros; lia.
Qed.

Lemma broadcast_rev_comm r1 : forall r2, broadcast_rev r1 r2 = broadcast_rev r2 r1.
Proof.
  induction r1 as [|a r1 IH]; intros [|b r2]; simpl; try reflexivity.
  now rewrite broadcast_dim_comm, IH.
Qed.

Lemma broadcast_shapes_comm s1 s2 : broadcast_shapes s1 s2 = broadcast_shapes s2 s1.
Proof. unfold broadcast_shapes. now rewrite broadcast_rev_comm. Qed.

(** Broadcasting two shapes of rank three. *)
Lemma broadcast_shapes_rank3 h w c h' w' c' :
  broadcast_shapes [h; w; c] [h'; w'; c']
  = match broadcast_dim h h', broadcast_dim w w', broadcast_dim c c' with
    | Some x, Some y, Some z => Some [x; y; z]
    | _, _, _ => None
    end.
Proof.
  unfold broadcast_shapes. cbn [rev app broadcast_rev].
  destruct (broadcast_dim c c'), (broadcast_dim w w'), (broadcast_dim h h'); reflexivity.
Qed.

Section BroadcastFacts.
Context {A : Type}.
Variable zero : A.
Variable A_eq_dec : forall x y : A, {x = y} + {x <> y}.

Local Abbreviation conserves := (reconstruction_conserves_data zero A_eq_dec).
Local Abbreviation conserved := (image_data_conserved zero A_eq_dec).

(** X10.  Two images whose sizes differ in a dimension, neither size being one,
    are not reported as different: both checks raise [ValueError].  They
    return a truth value exactly when every pair of dimensions is equal or
    has a one. *)
Theorem conserves_raises_on_size_mismatch (original reconstructed : Tensor A)
        (h w c h' w' c' : nat) :
  shape original = [h; w; c] -> shape reconstructed = [h'; w'; c'] ->
  ((h <> h' /\ h <> 1 /\ h' <> 1) \/ (w <> w' /\ w <> 1 /\ w' <> 1)
   \/ (c <> c' /\ c <> 1 /\ c' <> 1) ->
   conserves original reconstructed = Err ValueError
   /\ conserved original reconstructed = Err ValueError)
  /\ ((h = h' \/ h = 1 \/ h' = 1) -> (w = w' \/ w = 1 \/ w' = 1)
      -> (c = c' \/ c = 1 \/ c' = 1) ->
      exists r, conserves original reconstructed = Ok r).
Proof.
  intros Hso Hsr.
  assert (Hd : forall x y, (x = y \/ x = 1 \/ y = 1) -> exists z, broadcast_dim x y = Some z).
  { intros x y Hxy. destruct (broadcast_dim x y) as [z|] eqn:E; [now exists z|].
    apply broadcast_dim_none in E. lia. }
  split.
  - intros Hbad.
    assert (Hn : broadcast_shapes (shape original) (shape reconstructed) = None).
    { rewrite Hso, Hsr, broadcast_shapes_rank3.
      destruct Hbad as [Hb|[Hb|Hb]]; apply broadcast_dim_none in Hb; rewrite Hb;
        repeat match goal with |- context [broadcast_dim ?x ?y] =>
                 destruct (broadcast_dim x y) end; reflexivity. }
    assert (Hc : conserves original reconstructed = Err ValueError).
    { unfold reconstruction_conserves_data, np_equal. now rewrite Hn. }
    split; [assumption|]. now rewrite image_data_conserved_np, Hc.
  - intros Hh Hw Hc.
    destruct (Hd _ _ Hh) as (x & Hx), (Hd _ _ Hw) as (y & Hy), (Hd _ _ Hc) as (z & Hz).
    unfold reconstruction_conserves_data, np_equal.
    rewrite Hso, Hsr, broadcast_shapes_rank3, Hx, Hy, Hz. cbn [bind].
    eexists; reflexivity.
Qed.

(** X11.  Nothing is compared when the broadcast shape is empty: the check
    returns true whatever the two arrays hold. *)
Theorem conserves_vacuous_on_empty (original reconstructed : Tensor A) (s : list nat) :
  broadcast_shapes (shape original) (shape reconstructed) = Some s ->
  numel s = 0 ->
  conserves original reconstructed = Ok true.
Proof.
  intros Hs H0. unfold reconstruction_conserves_data, np_equal. rewrite Hs. cbn [bind].
  f_equal. apply np_all_tabulate. intros idx Hb.
  apply ravel_lt in Hb. lia.
Qed.

End BroadcastFacts.

Section DtypeBroadcastFacts.
Context {L R P : Type}.
Variable zero_l : L.
Variable zero_r : R.
Variable promote_l : L -> P.
Variable promote_r : R -> P.
Variable eqb_p : P -> P -> bool.
Variable eqb_l : L -> L -> bool.

(** X8.  On two arrays of one dtype whose [==] is identity (an integer
    dtype), whenever the shapes broadcast to [s] both checks return, and
    they return true exactly when the two arrays, each stretched to [s],
    are equal. *)
Theorem conserves_iff_broadcast_equal (original reconstructed : Tensor L) (s : list nat) :
  (forall x y, eqb_l x y = true <-> x = y) ->
  broadcast_shapes (shape original) (shape reconstructed) = Some s ->
  exists r,
    reconstruction_conserves_data_dtypes zero_l zero_l (fun x : L => x) (fun x : L => x)
      eqb_l original reconstructed = Ok r
    /\ image_data_conserved_dtypes zero_l (fun x : L => x) eqb_l original reconstructed
       = Ok (mkTensor [] [r])
    /\ (r = true <-> broadcast_to zero_l original s = broadcast_to zero_l reconstructed s).
Proof.
  intros Heq Hs.
  assert (Hc : exists r,
             reconstruction_conserves_data_dtypes zero_l zero_l (fun x : L => x)
               (fun x : L => x) eqb_l original reconstructed = Ok r
             /\ (r = true <->
                 broadcast_to zero_l original s = broadcast_to zero_l reconstructed s)).
  { unfold reconstruction_conserves_data_dtypes, np_equal_dtypes. rewrite Hs. cbn [bind].
    eexists; split; [reflexivity|]. rewrite np_all_tabulate. split.
    - intros H. apply (tensor_ext zero_l); try apply wf_tabulate; [reflexivity|].
      cbn [broadcast_to shape tabulate]. intros idx Hb.
      unfold broadcast_to. rewrite !(get_tabulate zero_l _ Hb).
      apply Heq. now apply H.
    - intros E idx Hb. apply Heq.
      apply (f_equal (fun t => get zero_l t idx)) in E.
      unfold broadcast_to in E. now rewrite !(get_tabulate zero_l _ Hb) in E. }
  destruct Hc as (r & Hr & Hiff). exists r. split; [assumption|]. split; [|assumption].
  rewrite image_data_conserved_dtypes_np, Hr. reflexivity.
Qed.

(** X9.  The NumPy-based check does not depend on the order of its two
    arguments, whatever their dtypes; the tensor-based check does not
    either when the two arrays have the same dtype. *)
Theorem conserves_symmetric (a : Tensor L) (b : Tensor R) (c d : Tensor L) :
  (forall x y, eqb_p x y = eqb_p y x) -> (forall x y, eqb_l x y = eqb_l y x) ->
  reconstruction_conserves_data_dtypes zero_l zero_r promote_l promote_r eqb_p a b
  = reconstruction_conserves_data_dtypes zero_r zero_l promote_r promote_l eqb_p b a
  /\ image_data_conserved_dtypes zero_l (fun x : L => x) eqb_l c d
     = image_data_conserved_dtypes zero_l (fun x : L => x) eqb_l d c.
Proof.
  intros Hp Hl.
  assert (Hnp : forall (T U : Type) (zt : T) (zu : U) (pt : T -> P) (pu : U -> P)
                  (x : Tensor T) (y : Tensor U),
             reconstruction_conserves_data_dtypes zt zu pt pu eqb_p x y
             = reconstruction_conserves_data_dtypes zu zt pu pt eqb_p y x).
  { intros T U zt zu pt pu x y.
    unfold reconstruction_conserves_data_dtypes, np_equal_dtypes.
    rewrite (broadcast_shapes_comm (shape x) (shape y)).
    destruct (broadcast_shapes _ _) as [s|]; [|reflexivity]. cbn [bind].
    do 2 f_equal. unfold tabulate. f_equal. apply map_ext. intros k. apply Hp. }
  split; [apply Hnp|].
  rewrite !image_data_conserved_dtypes_np.
  unfold reconstruction_conserves_data_dtypes, np_equal_dtypes.
  rewrite (broadcast_shapes_comm (shape c) (shape d)).
  destruct (broadcast_shapes _ _) as [s|]; [|reflexivity]. cbn [bind].
  do 4 f_equal. unfold tabulate. f_equal. apply map_ext. intros k. apply Hl.
Qed.

End DtypeBroadcastFacts.

(* ================================================================== *)
(** ** Failures of the pipeline before the reconstruction *)

Section PipelineFailures.
Context {A : Type}.
Variable zero : A.
Variable Score : Type.
Variable score : Measure -> Tensor A -> Score.
Variable score_leb : Score -> Score -> bool.
Variable decode_image : Tensor A -> Tensor A.

Local Abbreviation pipeline := (p_por zero score score_leb decode_image).


End PipelineFailures.

(* ================================================================== *)
(** ** The sliding-window extractor *)

Lemma windowed_output_valid input ksize stride :
  0 < ksize -> 0 < stride -> ksize <= input + stride ->
  windowed_output input ksize stride 1 "VALID" = Some ((input + stride - ksize) / stride, 0).
Proof.
  intros Hk Hs Hle. unfold windowed_output, effective_size.
  rewrite Nat.mul_1_r. replace (ksize - 1 + 1) with ksize by lia.
  destruct (Nat.ltb_spec 0 ksize); [|lia]. destruct (Nat.ltb_spec 0 stride); [|lia].
  cbn [Nat.ltb Nat.leb andb String.eqb Ascii.eqb Bool.eqb].
  destruct (Nat.leb_spec ksize (input + stride)); [reflexivity | lia].
Qed.

Lemma windowed_output_same_tiling g p :
  0 < p -> windowed_output (g * p) p p 1 "SAME" = Some (g, 0).
Proof.
  intros Hp. unfold windowed_output, effective_size.
  rewrite Nat.mul_1_r. replace (p - 1 + 1) with p by lia.
  destruct (Nat.ltb_spec 0 p); [|lia].
  cbn [Nat.ltb Nat.leb andb String.eqb Ascii.eqb Bool.eqb].
  replace (g * p + p - 1) with (g * p + (p - 1)) by lia.
  rewrite block_div by lia.
  replace (g * p + p - (p + g * p)) with 0 by lia. reflexivity.
Qed.

Section SlidingWindowFacts.
Context {A : Type}.
Variable zero : A.

(** The extractor on a batch, for unit rates, once the window counts are
    known. *)
Lemma extract_patches_unit_rates (images : Tensor A) b rows cols depth
      kr kc sr sc padding orows pr ocols pc :
  shape images = [b; rows; cols; depth] ->
  windowed_output rows kr sr 1 padding = Some (orows, pr) ->
  windowed_output cols kc sc 1 padding = Some (ocols, pc) ->
  exists patches,
    tf_extract_image_patches zero images [1; kr; kc; 1] [1; sr; sc; 1] [1; 1; 1; 1] padding
    = Ok patches
    /\ shape patches = [b; orows; ocols; kr * kc * depth] /\ wf patches
    /\ forall n i j d, n < b -> i < orows -> j < ocols -> d < kr * kc * depth ->
         get zero patches [n; i; j; d]
         = let y := i * sr + d / depth / kc * 1 in
           let x := j * sc + d / depth mod kc * 1 in
           if (pr <=? y) && (y - pr <? rows) && (pc <=? x) && (x - pc <? cols)
           then get zero images [n; y - pr; x - pc; d mod depth] else zero.
Proof.
  intros Hs Hr Hc. unfold tf_extract_image_patches. rewrite Hs.
  cbn [length nth shape_eqb Nat.eqb andb]. rewrite Hr, Hc.
  eexists; split; [reflexivity|]. split; [reflexivity|]. split; [apply wf_tabulate|].
  intros n i j d Hn Hi Hj Hd. rewrite get_tabulate by bounds. reflexivity.
Qed.

(** Unit rates, no padding: the extractor returns every window that lies
    inside the image and no other. *)
Lemma patchify_valid (image : Tensor A) rows cols depth kr kc sr sc :
  shape image = [rows; cols; depth] ->
  0 < kr -> 0 < kc -> 0 < sr -> 0 < sc -> kr <= rows + sr -> kc <= cols + sc ->
  exists patches,
    _patchify_tf zero image kr kc sr sc [1; 1; 1; 1] "VALID" = Ok patches
    /\ shape patches = [1; (rows + sr - kr) / sr; (cols + sc - kc) / sc; kr * kc * depth]
    /\ wf patches
    /\ forall i j a b c,
         i < (rows + sr - kr) / sr -> j < (cols + sc - kc) / sc ->
         a < kr -> b < kc -> c < depth ->
         i * sr + a < rows /\ j * sc + b < cols
         /\ get zero patches [0; i; j; (a * kc + b) * depth + c]
            = get zero image [i * sr + a; j * sc + b; c].
Proof.
  intros Hs Hkr Hkc Hsr Hsc Hr Hc. unfold _patchify_tf, tf_expand_dims.
  cbn [Nat.leb insert_at firstn skipn app bind]. rewrite Hs.
  destruct (@extract_patches_unit_rates (mkTensor [1; rows; cols; depth] (data image))
              1 rows cols depth kr kc sr sc "VALID" _ 0 _ 0 eq_refl
              (@windowed_output_valid rows kr sr Hkr Hsr Hr)
              (@windowed_output_valid cols kc sc Hkc Hsc Hc))
    as (t & -> & Hst & Hwt & Hgt).
  cbn [bind]. eexists; split; [reflexivity|]. split; [assumption|]. split; [assumption|].
  intros i j a b c Hi Hj Ha Hb Hcd.
  assert (Hy : i * sr + a < rows).
  { pose proof (Nat.Div0.mul_div_le (rows + sr - kr) sr). nia. }
  assert (Hx : j * sc + b < cols).
  { pose proof (Nat.Div0.mul_div_le (cols + sc - kc) sc). nia. }
  split; [assumption|]. split; [assumption|].
  rewrite Hgt; try assumption; try lia.
  - cbv zeta. rewrite !block_div, !block_mod by assumption.
    rewrite !Nat.mul_1_r, !Nat.sub_0_r.
    destruct (Nat.ltb_spec (i * sr + a) rows); [|lia].
    destruct (Nat.ltb_spec (j * sc + b) cols); [|lia].
    cbn [Nat.leb andb].
    apply get_mkTensor_data. rewrite Hs. cbn [ravel numel fold_right]. ring.
  - apply block_index_lt; [|assumption]. now apply block_index_lt.
Qed.

(** Windows that fit in the image, under ["VALID"] padding. *)
Lemma patchify_valid_fit (image : Tensor A)
        (rows cols depth ksize_rows ksize_cols strides_rows strides_cols : nat) :
  shape image = [rows; cols; depth] ->
  0 < ksize_rows -> 0 < ksize_cols -> 0 < strides_rows -> 0 < strides_cols ->
  ksize_rows <= rows -> ksize_cols <= cols ->
  exists patches,
    _patchify_tf zero image ksize_rows ksize_cols strides_rows strides_cols
      [1; 1; 1; 1] "VALID" = Ok patches
    /\ shape patches = [1; (rows - ksize_rows) / strides_rows + 1;
                        (cols - ksize_cols) / strides_cols + 1;
                        ksize_rows * ksize_cols * depth]
    /\ forall i j a b c,
         i < (rows - ksize_rows) / strides_rows + 1 ->
         j < (cols - ksize_cols) / strides_cols + 1 ->
         a < ksize_rows -> b < ksize_cols -> c < depth ->
         i * strides_rows + a < rows /\ j * strides_cols + b < cols
         /\ get zero patches [0; i; j; (a * ksize_cols + b) * depth + c]
            = get zero image [i * strides_rows + a; j * strides_cols + b; c].
Proof.
  intros Hs Hkr Hkc Hsr Hsc Hr Hc.
  assert (Er : (rows + strides_rows - ksize_rows) / strides_rows
               = (rows - ksize_rows) / strides_rows + 1).
  { replace (rows + strides_rows - ksize_rows)
      with (rows - ksize_rows + 1 * strides_rows) by lia.
    apply Nat.div_add. lia. }
  assert (Ec : (cols + strides_cols - ksize_cols) / strides_cols
               = (cols - ksize_cols) / strides_cols + 1).
  { replace (cols + strides_cols - ksize_cols)
      with (cols - ksize_cols + 1 * strides_cols) by lia.
    apply Nat.div_add. lia. }
  destruct (@patchify_valid image rows cols depth ksize_rows ksize_cols
              strides_rows strides_cols Hs Hkr Hkc Hsr Hsc)
    as (t & Ht & Hst & _ & Hgt); try lia.
  rewrite Er, Ec in Hst, Hgt.
  exists t. split; [assumption|]. split; [assumption|]. exact Hgt.
Qed.

(** X13.  With unit rates and ["VALID"] padding, windows that fit in the image
    ([ksize <= size]) are [(size - ksize) / stride + 1] per dimension;
    window [(i, j)] holds, flattened rows first, the pixels
    [image[i*stride_rows + a, j*stride_cols + b, c]], all of them inside
    the image: nothing is padded. *)
Theorem patchify_valid_windows (image : Tensor A)
        (rows cols depth ksize_rows ksize_cols strides_rows strides_cols : nat) :
  shape image = [rows; cols; depth] ->
  0 < ksize_rows -> 0 < ksize_cols -> 0 < strides_rows -> 0 < strides_cols ->
  ksize_rows <= rows -> ksize_cols <= cols ->
  exists patches,
    _patchify_tf zero image ksize_rows ksize_cols strides_rows strides_cols
      [1; 1; 1; 1] "VALID" = Ok patches
    /\ shape patches = [1; (rows - ksize_rows) / strides_rows + 1;
                        (cols - ksize_cols) / strides_cols + 1;
                        ksize_rows * ksize_cols * depth]
    /\ forall i j a b c,
         i < (rows - ksize_rows) / strides_rows + 1 ->
         j < (cols - ksize_cols) / strides_cols + 1 ->
         a < ksize_rows -> b < ksize_cols -> c < depth ->
         i * strides_rows + a < rows /\ j * strides_cols + b < cols
         /\ get zero patches [0; i; j; (a * ksize_cols + b) * depth + c]
            = get zero image [i * strides_rows + a; j * strides_cols + b; c].
Proof.
  intros Hs Hkr Hkc Hsr Hsc Hr Hc.
  exact (@patchify_valid_fit image rows cols depth ksize_rows ksize_cols
           strides_rows strides_cols Hs Hkr Hkc Hsr Hsc Hr Hc).
Qed.

(** X15.  When the window and the stride both equal a size that divides the
    image, the padding mode makes no difference: ["SAME"] has nothing to
    pad. *)
Theorem patchify_tiling_same_as_valid (image : Tensor A) (g g' p depth : nat) :
  shape image = [g * p; g' * p; depth] -> 0 < p ->
  _patchify_tf zero image p p p p [1; 1; 1; 1] "SAME"
  = _patchify_tf zero image p p p p [1; 1; 1; 1] "VALID".
Proof.
  intros Hs Hp. unfold _patchify_tf, tf_expand_dims.
  cbn [Nat.leb insert_at firstn skipn app bind]. rewrite Hs.
  unfold tf_extract_image_patches.
  cbn [shape length nth shape_eqb Nat.eqb andb].
  rewrite !windowed_output_same_tiling by assumption.
  rewrite !windowed_output_valid by lia.
  replace (g * p + p - p) with (g * p) by lia.
  replace (g' * p + p - p) with (g' * p) by lia.
  rewrite !Nat.div_mul by lia. reflexivity.
Qed.

End SlidingWindowFacts.

Section TwoSplitters.
Context {A : Type}.
Variable zero : A.
Variable decode_image : Tensor A -> Tensor A.

(** X16.  The two helpers of the module agree: the sliding-window extractor run
    with window and stride equal to the patch size gives, once its result
    is reshaped to [(-1, p, p, 3)], the batch of patches of
    [generate_patches_v2]. *)
Theorem patchify_tiling_is_split (image : Tensor A) (h p : nat) (pad : bool) :
  shape image = [h; h; 3] -> 0 < p -> h mod p = 0 ->
  (windows <- _patchify_tf zero image p p p p [1; 1; 1; 1] "VALID" ;;
   tf_reshape windows [None; Some p; Some p; Some 3])
  = generate_patches_v2 zero decode_image image h h p p pad false.
Proof.
  intros Hs Hp Hdiv.
  destruct (split_square zero decode_image image pad Hs Hp Hdiv)
    as (out & -> & Hso & Hwo & Hget).
  destruct (@patchify_valid _ zero image h h 3 p p p p Hs Hp Hp Hp Hp)
    as (t & -> & Hst & Hwt & Hgt); try lia.
  replace (h + p - p) with h in Hst, Hgt by lia.
  set (g := h / p) in *. cbn [bind].
  rewrite (@tf_reshape_auto _ t (g * g) p p 3)
    by (try nia; rewrite Hst; cbn [numel fold_right]; ring).
  f_equal. apply (tensor_ext zero); try assumption.
  - unfold wf in *. cbn [shape data]. rewrite Hwt, Hst. cbn [numel fold_right]. ring.
  - now rewrite Hso.
  - cbn [shape]. intros idx Hb.
    inversion Hb as [|n ? i1 ? Hn H1]; subst.
    inversion H1 as [|r ? i2 ? Hr H2]; subst.
    inversion H2 as [|c ? i3 ? Hc H3]; subst.
    inversion H3 as [|ch ? i4 ? Hch H4]; subst.
    inversion H4; subst.
    pose proof (cell_row_lt _ _ Hn) as Hi. pose proof (cell_col_lt _ _ Hn) as Hj.
    rewrite (@get_mkTensor_data _ zero t _ _ [0; n / g; n mod g; (r * p + c) * 3 + ch]).
    + destruct (Hgt (n / g) (n mod g) r c ch Hi Hj Hr Hc Hch) as (_ & _ & ->).
      rewrite <- (Hget (n / g) (n mod g) r c ch Hi Hj Hr Hc Hch).
      now rewrite cell_number.
    + rewrite Hst. cbn [ravel numel fold_right].
      rewrite <- (cell_number n g) at 1. ring.
Qed.

End TwoSplitters.

Section MoreSplitterFacts.
Context {A : Type}.
Variable zero : A.
Variable decode_image : Tensor A -> Tensor A.

Local Abbreviation split := (generate_patches_v2 zero decode_image).

(** X7.  The split is lossless on its own: two images with the same batch of
    patches are the same image. *)
Theorem generate_patches_v2_injective (image image' : Tensor A) (h p : nat) (pad : bool) :
  wf image -> wf image' -> shape image = [h; h; 3] -> shape image' = [h; h; 3] ->
  0 < p -> h mod p = 0 ->
  split image h h p p pad false = split image' h h p p pad false ->
  image = image'.
Proof.
  intros Hwf Hwf' Hs Hs' Hp Hdiv Heq.
  destruct (split_square zero decode_image image pad Hs Hp Hdiv)
    as (out & Hout & _ & _ & Hget).
  destruct (split_square zero decode_image image' pad Hs' Hp Hdiv)
    as (out' & Hout' & _ & _ & Hget').
  rewrite Hout, Hout' in Heq. injection Heq as <-.
  pose proof (exact_multiple _ _ Hdiv) as Hh.
  apply (tensor_ext zero); try assumption; [congruence|].
  rewrite Hs. intros idx Hb.
  inversion Hb as [|y ? i1 ? Hy H1]; subst.
  inversion H1 as [|x ? i2 ? Hx H2]; subst.
  inversion H2 as [|ch ? i3 ? Hch H3]; subst.
  inversion H3; subst.
  assert (Hyg : y / p < h / p) by (apply Nat.Div0.div_lt_upper_bound; lia).
  assert (Hxg : x / p < h / p) by (apply Nat.Div0.div_lt_upper_bound; lia).
  assert (Hyr : y mod p < p) by (apply Nat.mod_upper_bound; lia).
  assert (Hxr : x mod p < p) by (apply Nat.mod_upper_bound; lia).
  pose proof (Hget _ _ _ _ _ Hyg Hxg Hyr Hxr Hch) as E.
  pose proof (Hget' _ _ _ _ _ Hyg Hxg Hyr Hxr Hch) as E'.
  rewrite !cell_number in E, E'. congruence.
Qed.

(** X14.  With a stride smaller than the window, consecutive windows overlap:
    row [a >= stride] of window [i] is row [a - stride] of window [i + 1].
    (The block decomposition of [generate_patches_v2] never shares a
    pixel.) *)
Theorem patchify_windows_overlap (image : Tensor A)
        (rows cols depth ksize_rows ksize_cols strides_rows strides_cols : nat) :
  shape image = [rows; cols; depth] ->
  0 < ksize_cols -> 0 < strides_rows -> 0 < strides_cols ->
  strides_rows < ksize_rows -> ksize_rows <= rows -> ksize_cols <= cols ->
  exists patches,
    _patchify_tf zero image ksize_rows ksize_cols strides_rows strides_cols
      [1; 1; 1; 1] "VALID" = Ok patches
    /\ forall i j a b c,
         i + 1 < (rows - ksize_rows) / strides_rows + 1 ->
         j < (cols - ksize_cols) / strides_cols + 1 ->
         strides_rows <= a -> a < ksize_rows -> b < ksize_cols -> c < depth ->
         get zero patches [0; i; j; (a * ksize_cols + b) * depth + c]
         = get zero patches [0; i + 1; j; ((a - strides_rows) * ksize_cols + b) * depth + c].
Proof.
  intros Hs Hkc Hsr Hsc Hlt Hr Hc.
  destruct (@patchify_valid_fit _ zero image rows cols depth ksize_rows ksize_cols
              strides_rows strides_cols Hs) as (t & Ht & _ & Hgt); try lia.
  exists t. split; [assumption|].
  intros i j a b c Hi Hj Hsa Ha Hb Hcd.
  destruct (Hgt i j a b c) as (_ & _ & ->); try lia.
  destruct (Hgt (i + 1) j (a - strides_rows) b c) as (_ & _ & ->); try lia.
  f_equal. f_equal. lia.
Qed.

End MoreSplitterFacts.

(* ================================================================== *)
(** ** Concrete instances of the further properties *)

Lemma generate_patches_v2_failure_kinds_witness :
  generate_patches_v2 0 no_decoding sample_image 4 5 2 2 true false = Err ValueError
  /\ generate_patches_v2 0 no_decoding sample_image 2 8 2 2 true false = Err AssertionError
  /\ generate_patches_v2 0 no_decoding sample_image 4 4 3 3 true false = Err ValueError.
Proof.
  split; [|split].
  - apply (proj1 (@generate_patches_v2_failure_kinds nat 0 no_decoding sample_image
                    4 5 2 2 true)).
    cbn. lia.
  - apply (proj1 (proj2 (@generate_patches_v2_failure_kinds nat 0 no_decoding sample_image
                           2 8 2 2 true))).
    + reflexivity.
    + left. lia.
  - apply (proj2 (proj2 (@generate_patches_v2_failure_kinds nat 0 no_decoding sample_image
                           4 4 3 3 true))); try reflexivity.
    right. cbn. lia.
Defined.

Lemma generate_patches_v2_ignores_layout_witness :
  (data flat_image = data sample_image
   /\ numel (shape flat_image) = numel (shape sample_image))
  /\ generate_patches_v2 0 no_decoding flat_image 4 4 2 2 false false
     = generate_patches_v2 0 no_decoding sample_image 4 4 2 2 false false.
Proof.
  split; [split; reflexivity|].
  apply (@generate_patches_v2_ignores_layout nat 0 no_decoding flat_image sample_image
           4 4 2 2 false); reflexivity.
Defined.

Lemma generate_patches_v2_permutes_pixels_witness :
  (wf sample_image /\ numel (shape sample_image) = 4 * 4 * 3 /\ 0 < 2 /\ 4 mod 2 = 0)
  /\ exists patches,
       generate_patches_v2 0 no_decoding sample_image 4 4 2 2 false false = Ok patches
       /\ Permutation (data patches) (data sample_image).
Proof.
  split; [repeat split; lia|].
  apply (@generate_patches_v2_permutes_pixels nat 0 no_decoding sample_image 4 2 false);
    try reflexivity; lia.
Defined.

Lemma generate_patches_v2_whole_image_witness :
  (wf sample_image /\ shape sample_image = [4; 4; 3] /\ 0 < 4)
  /\ generate_patches_v2 0 no_decoding sample_image 4 4 4 4 false false
     = Ok (mkTensor [1; 4; 4; 3] (data sample_image)).
Proof.
  split; [repeat split; lia|].
  apply (@generate_patches_v2_whole_image nat 0 no_decoding sample_image 4 false);
    try reflexivity; lia.
Defined.

Lemma generate_patches_v2_single_pixels_witness :
  (wf sample_image /\ shape sample_image = [4; 4; 3])
  /\ generate_patches_v2 0 no_decoding sample_image 4 4 1 1 false false
     = Ok (mkTensor [4 * 4; 1; 1; 3] (data sample_image)).
Proof.
  split; [split; reflexivity|].
  apply (@generate_patches_v2_single_pixels nat 0 no_decoding sample_image 4 false);
    reflexivity.
Defined.

Lemma generate_patches_v2_injective_witness :
  (wf sample_image /\ shape sample_image = [4; 4; 3] /\ 0 < 2 /\ 4 mod 2 = 0
   /\ generate_patches_v2 0 no_decoding sample_image 4 4 2 2 false false
      = generate_patches_v2 0 no_decoding (mkTensor [4; 4; 3] (seq 0 48)) 4 4 2 2 false false)
  /\ sample_image = mkTensor [4; 4; 3] (seq 0 48).
Proof.
  split; [repeat split; lia|].
  apply (@generate_patches_v2_injective nat 0 no_decoding sample_image
           (mkTensor [4; 4; 3] (seq 0 48)) 4 2 false); try reflexivity; lia.
Defined.

Lemma conserves_iff_broadcast_equal_witness :
  ((forall x y, Nat.eqb x y = true <-> x = y)
   /\ broadcast_shapes (shape uniform_image) (shape pixel_image) = Some [2; 2; 3])
  /\ exists r,
       reconstruction_conserves_data_dtypes 0 0 (fun x : nat => x) (fun x : nat => x)
         Nat.eqb uniform_image pixel_image = Ok r
       /\ image_data_conserved_dtypes 0 (fun x : nat => x) Nat.eqb uniform_image pixel_image
          = Ok (mkTensor [] [r])
       /\ (r = true <->
           broadcast_to 0 uniform_image [2; 2; 3] = broadcast_to 0 pixel_image [2; 2; 3]).
Proof.
  split; [split; [exact Nat.eqb_eq | reflexivity]|].
  apply (@conserves_iff_broadcast_equal nat 0 Nat.eqb uniform_image pixel_image [2; 2; 3]);
    [exact Nat.eqb_eq | reflexivity].
Defined.

Lemma conserves_symmetric_witness :
  ((forall x y, Nat.eqb x y = Nat.eqb y x))
  /\ (reconstruction_conserves_data_dtypes 0 0 uint8_to_int32 int32_to_int32 Nat.eqb
        uint8_one int32_257
      = reconstruction_conserves_data_dtypes 0 0 int32_to_int32 uint8_to_int32 Nat.eqb
          int32_257 uint8_one
      /\ image_data_conserved_dtypes 0 (fun x : nat => x) Nat.eqb uniform_image pixel_image
         = image_data_conserved_dtypes 0 (fun x : nat => x) Nat.eqb pixel_image uniform_image).
Proof.
  split; [exact Nat.eqb_sym|].
  apply (@conserves_symmetric nat nat nat 0 0 uint8_to_int32 int32_to_int32 Nat.eqb Nat.eqb
           uint8_one int32_257 uniform_image pixel_image); exact Nat.eqb_sym.
Defined.

Lemma conserves_raises_on_size_mismatch_witness :
  reconstruction_conserves_data 0 Nat.eq_dec sample_image uniform_image = Err ValueError
  /\ image_data_conserved 0 Nat.eq_dec sample_image uniform_image = Err ValueError.
Proof.
  apply (proj1 (@conserves_raises_on_size_mismatch nat 0 Nat.eq_dec sample_image uniform_image
                  4 4 3 2 2 3 eq_refl eq_refl)).
  left. lia.
Defined.

Lemma conserves_vacuous_on_empty_witness :
  (broadcast_shapes (shape row_image) (shape empty_image) = Some [0; 2; 3]
   /\ numel [0; 2; 3] = 0)
  /\ reconstruction_conserves_data 0 Nat.eq_dec row_image empty_image = Ok true.
Proof.
  split; [split; reflexivity|].
  apply (@conserves_vacuous_on_empty nat 0 Nat.eq_dec row_image empty_image [0; 2; 3]);
    reflexivity.
Defined.


Lemma patchify_valid_windows_witness :
  (shape sample_image = [4; 4; 3] /\ 0 < 3 /\ 0 < 1 /\ 3 <= 4)
  /\ exists patches,
       _patchify_tf 0 sample_image 3 3 1 1 [1; 1; 1; 1] "VALID" = Ok patches
       /\ shape patches = [1; (4 - 3) / 1 + 1; (4 - 3) / 1 + 1; 3 * 3 * 3]
       /\ forall i j a b c,
            i < (4 - 3) / 1 + 1 -> j < (4 - 3) / 1 + 1 -> a < 3 -> b < 3 -> c < 3 ->
            i * 1 + a < 4 /\ j * 1 + b < 4
            /\ get 0 patches [0; i; j; (a * 3 + b) * 3 + c]
               = get 0 sample_image [i * 1 + a; j * 1 + b; c].
Proof.
  split; [repeat split; lia|].
  apply (@patchify_valid_windows nat 0 sample_image 4 4 3 3 3 1 1); try reflexivity; lia.
Defined.

Lemma patchify_windows_overlap_witness :
  (shape sample_image = [4; 4; 3] /\ 1 < 3 /\ 3 <= 4)
  /\ exists patches,
       _patchify_tf 0 sample_image 3 3 1 1 [1; 1; 1; 1] "VALID" = Ok patches
       /\ forall i j a b c,
            i + 1 < (4 - 3) / 1 + 1 -> j < (4 - 3) / 1 + 1 ->
            1 <= a -> a < 3 -> b < 3 -> c < 3 ->
            get 0 patches [0; i; j; (a * 3 + b) * 3 + c]
            = get 0 patches [0; i + 1; j; ((a - 1) * 3 + b) * 3 + c].
Proof.
  split; [repeat split; lia|].
  apply (@patchify_windows_overlap nat 0 sample_image 4 4 3 3 3 1 1); try reflexivity; lia.
Defined.

Lemma patchify_tiling_same_as_valid_witness :
  (shape sample_image = [2 * 2; 2 * 2; 3] /\ 0 < 2)
  /\ _patchify_tf 0 sample_image 2 2 2 2 [1; 1; 1; 1] "SAME"
     = _patchify_tf 0 sample_image 2 2 2 2 [1; 1; 1; 1] "VALID".
Proof.
  split; [split; [reflexivity | lia]|].
  apply (@patchify_tiling_same_as_valid nat 0 sample_image 2 2 2 3); [reflexivity | lia].
Defined.

Lemma patchify_tiling_is_split_witness :
  (shape sample_image = [4; 4; 3] /\ 0 < 2 /\ 4 mod 2 = 0)
  /\ (windows <- _patchify_tf 0 sample_image 2 2 2 2 [1; 1; 1; 1] "VALID" ;;
      tf_reshape windows [None; Some 2; Some 2; Some 3])
     = generate_patches_v2 0 no_decoding sample_image 4 4 2 2 false false.
Proof.
  split; [repeat split; lia|].
  apply (@patchify_tiling_is_split nat 0 no_decoding sample_image 4 2 false);
    try reflexivity; lia.
Defined.
